(** * Verification of the Kusto ingest client

    Shallow embedding of
    [azure-kusto-ingest/azure/kusto/ingest/_kusto_ingest_client.py]
    together with the pieces of the Python runtime it relies on
    ([base64.b64encode], [str.encode("utf-8")], [json.dumps],
    [random.choice], [uuid.uuid4]) and of the collaborators it calls
    (the resource manager, the blob service and the queue service). *)

From Stdlib Require Import ZArith List Lia Bool String Ascii Arith FinFun.
From Stdlib Require Import DecimalZ DecimalN DecimalPos DecimalFacts.
Import ListNotations.

Local Open Scope Z_scope.

(** ** Python strings and byte strings

    A Python 3 [str] is a sequence of code points and a [bytes] object a
    sequence of octets; both are lists of integers here, with their ranges
    as separate predicates. *)

Definition str := list Z.
Definition bytes := list Z.

Definition lit (s : string) : str :=
  List.map (fun a => Z.of_N (N_of_ascii a)) (list_ascii_of_string s).

Definition is_byte (b : Z) : Prop := 0 <= b < 256.
Definition is_ascii (c : Z) : Prop := 0 <= c < 128.

(** A code point that [str.encode("utf-8")] accepts: a Unicode scalar value. *)
Definition scalarb (c : Z) : bool :=
  (0 <=? c) && (c <? 1114112) && negb ((55296 <=? c) && (c <=? 57343)).
Definition scalar (c : Z) : Prop := scalarb c = true.

Definition str_eqb (a b : str) : bool :=
  if list_eq_dec Z.eq_dec a b then true else false.

Lemma Some_inj {A} (a b : A) : Some a = Some b -> a = b.
Proof. congruence. Qed.

Lemma list_sum_cons (a : nat) (l : list nat) :
  list_sum (a :: l) = (a + list_sum l)%nat.
Proof. reflexivity. Qed.

Lemma Forall_app_intro {A} (P : A -> Prop) (l1 l2 : list A) :
  Forall P l1 -> Forall P l2 -> Forall P (l1 ++ l2).
Proof. intros H1 H2. apply Forall_app. split; assumption. Qed.

(** Bit operations on bounded integers, as arithmetic. *)
Lemma lor_shiftl_add hi lo k :
  0 <= k -> 0 <= lo < 2 ^ k -> Z.lor (Z.shiftl hi k) lo = hi * 2 ^ k + lo.
Proof.
  intros Hk Hlo.
  rewrite Z.shiftl_mul_pow2 by assumption.
  assert (Hdisj : Z.land (hi * 2 ^ k) lo = 0).
  { apply Z.bits_inj'. intros m Hm. rewrite Z.land_spec, Z.bits_0.
    destruct (Z.lt_ge_cases m k) as [Hlt | Hge].
    - rewrite Z.mul_pow2_bits_low by lia. reflexivity.
    - destruct (Z.eq_dec lo 0) as [-> | Hnz].
      + rewrite Z.bits_0. apply andb_false_r.
      + rewrite (Z.bits_above_log2 lo m), andb_false_r; trivial; try lia.
        assert (Z.log2 lo < k) by (apply Z.log2_lt_pow2; lia). lia. }
  rewrite <- Z.lxor_lor, <- Z.add_nocarry_lxor; trivial.
Qed.

Lemma land_low a k : 0 <= k -> Z.land a (2 ^ k - 1) = a mod 2 ^ k.
Proof.
  intros Hk. replace (2 ^ k - 1) with (Z.ones k).
  - apply Z.land_ones; assumption.
  - rewrite Z.ones_equiv. lia.
Qed.

Lemma land_3 a : Z.land a 3 = a mod 4.
Proof. apply (land_low a 2). lia. Qed.
Lemma land_15 a : Z.land a 15 = a mod 16.
Proof. apply (land_low a 4). lia. Qed.
Lemma land_63 a : Z.land a 63 = a mod 64.
Proof. apply (land_low a 6). lia. Qed.
Lemma land_1023 a : Z.land a 1023 = a mod 1024.
Proof. apply (land_low a 10). lia. Qed.

Ltac bits_to_arith :=
  repeat match goal with
  | |- context [Z.shiftr ?a ?k] =>
      rewrite (Z.shiftr_div_pow2 a k) by lia
  end;
  rewrite ?land_3, ?land_15, ?land_63, ?land_1023;
  change (2 ^ 2) with 4 in *; change (2 ^ 4) with 16 in *;
  change (2 ^ 6) with 64 in *; change (2 ^ 10) with 1024 in *;
  change (2 ^ 12) with 4096 in *; change (2 ^ 18) with 262144 in *.

Ltac div_mod_lia := Z.div_mod_to_equations; lia.

Ltac ltb_true a b := rewrite (proj2 (Z.ltb_lt a b)) by lia.
Ltac ltb_false a b := rewrite (proj2 (Z.ltb_ge a b)) by lia.
Ltac leb_true a b := rewrite (proj2 (Z.leb_le a b)) by lia.
Ltac leb_false a b := rewrite (proj2 (Z.leb_gt a b)) by lia.

Ltac decide_tests :=
  repeat match goal with
  | |- context [?a <? ?b] =>
      destruct (Z.ltb_spec a b); [ try lia | try lia ]
  | |- context [?a <=? ?b] =>
      destruct (Z.leb_spec a b); [ try lia | try lia ]
  end.


(** ** Base64, as [base64.b64encode] and [base64.b64decode] *)

Module Base64.

Definition alphabet : str :=
  lit "ABCDEFGHIJKLMNOPQRSTUVWXYZabcdefghijklmnopqrstuvwxyz0123456789+/".

Definition pad : Z := 61.

(** [table_b2a_base64[i]] *)
Definition b2a (i : Z) : Z := nth (Z.to_nat i) alphabet pad.

(** [table_a2b_base64[c]], [None] for a character outside the alphabet. *)
Definition a2b (c : Z) : option Z :=
  if (65 <=? c) && (c <=? 90) then Some (c - 65)
  else if (97 <=? c) && (c <=? 122) then Some (c - 71)
  else if (48 <=? c) && (c <=? 57) then Some (c + 4)
  else if c =? 43 then Some 62
  else if c =? 47 then Some 63
  else None.

(** Three octets make four sextets; a tail of one or two octets is padded
    with [=]. *)
Fixpoint b64encode (bs : bytes) : bytes :=
  match bs with
  | [] => []
  | [a] =>
      [b2a (Z.shiftr a 2); b2a (Z.shiftl (Z.land a 3) 4); pad; pad]
  | [a; b] =>
      [b2a (Z.shiftr a 2);
       b2a (Z.lor (Z.shiftl (Z.land a 3) 4) (Z.shiftr b 4));
       b2a (Z.shiftl (Z.land b 15) 2); pad]
  | a :: b :: c :: rest =>
      b2a (Z.shiftr a 2)
      :: b2a (Z.lor (Z.shiftl (Z.land a 3) 4) (Z.shiftr b 4))
      :: b2a (Z.lor (Z.shiftl (Z.land b 15) 2) (Z.shiftr c 6))
      :: b2a (Z.land c 63)
      :: b64encode rest
  end.

(** Strict decoding ([validate=True]): whole quanta of four characters, the
    padding only in the last one. *)
Fixpoint b64decode (cs : bytes) : option bytes :=
  match cs with
  | [] => Some []
  | c0 :: c1 :: c2 :: c3 :: rest =>
      match a2b c0, a2b c1 with
      | Some s0, Some s1 =>
          let o0 := Z.lor (Z.shiftl s0 2) (Z.shiftr s1 4) in
          if c2 =? pad then
            if (c3 =? pad) && (match rest with [] => true | _ => false end)
            then Some [o0] else None
          else
            match a2b c2 with
            | None => None
            | Some s2 =>
                let o1 := Z.lor (Z.shiftl (Z.land s1 15) 4) (Z.shiftr s2 2) in
                if c3 =? pad then
                  match rest with [] => Some [o0; o1] | _ => None end
                else
                  match a2b c3 with
                  | None => None
                  | Some s3 =>
                      let o2 := Z.lor (Z.shiftl (Z.land s2 3) 6) s3 in
                      match b64decode rest with
                      | Some r => Some (o0 :: o1 :: o2 :: r)
                      | None => None
                      end
                  end
            end
      | _, _ => None
      end
  | _ => None
  end.

Lemma b2a_range i : 0 <= i < 64 ->
  b2a i <> pad /\ a2b (b2a i) = Some i /\ is_ascii (b2a i).
Proof.
  intros Hi. unfold b2a.
  assert (H : forall n, (n < 64)%nat ->
            nth n alphabet pad <> pad
            /\ a2b (nth n alphabet pad) = Some (Z.of_nat n)
            /\ is_ascii (nth n alphabet pad)).
  { intros n Hn.
    do 64 (destruct n as [|n];
           [ vm_compute; repeat split; discriminate || reflexivity | ]).
    lia. }
  specialize (H (Z.to_nat i)). rewrite Z2Nat.id in H by lia.
  apply H. lia.
Qed.

Section Sextets.
Variables a b c : Z.
Hypothesis Ha : is_byte a.
Hypothesis Hb : is_byte b.
Hypothesis Hc : is_byte c.

Definition sx0 := Z.shiftr a 2.
Definition sx1 := Z.lor (Z.shiftl (Z.land a 3) 4) (Z.shiftr b 4).
Definition sx1_tail := Z.shiftl (Z.land a 3) 4.
Definition sx2 := Z.lor (Z.shiftl (Z.land b 15) 2) (Z.shiftr c 6).
Definition sx2_tail := Z.shiftl (Z.land b 15) 2.
Definition sx3 := Z.land c 63.

Lemma sx0_eq : sx0 = a / 4.
Proof. unfold sx0. bits_to_arith. reflexivity. Qed.

Lemma sx1_eq : sx1 = (a mod 4) * 16 + b / 16.
Proof.
  unfold sx1, is_byte in *. rewrite lor_shiftl_add; bits_to_arith;
    try lia; try div_mod_lia.
Qed.

Lemma sx1_tail_eq : sx1_tail = (a mod 4) * 16.
Proof.
  unfold sx1_tail. rewrite Z.shiftl_mul_pow2 by lia. bits_to_arith.
  reflexivity.
Qed.

Lemma sx2_eq : sx2 = (b mod 16) * 4 + c / 64.
Proof.
  unfold sx2, is_byte in *. rewrite lor_shiftl_add; bits_to_arith;
    try lia; try div_mod_lia.
Qed.

Lemma sx2_tail_eq : sx2_tail = (b mod 16) * 4.
Proof.
  unfold sx2_tail. rewrite Z.shiftl_mul_pow2 by lia. bits_to_arith.
  reflexivity.
Qed.

Lemma sx3_eq : sx3 = c mod 64.
Proof. unfold sx3. bits_to_arith. reflexivity. Qed.

Lemma sextet_ranges :
  0 <= sx0 < 64 /\ 0 <= sx1 < 64 /\ 0 <= sx1_tail < 64
  /\ 0 <= sx2 < 64 /\ 0 <= sx2_tail < 64 /\ 0 <= sx3 < 64.
Proof.
  rewrite sx0_eq, sx1_eq, sx1_tail_eq, sx2_eq, sx2_tail_eq, sx3_eq.
  unfold is_byte in *. repeat split; div_mod_lia.
Qed.

(** The octets read back from the sextets. *)
Lemma octet0 s1 : s1 = sx1 \/ s1 = sx1_tail ->
  Z.lor (Z.shiftl sx0 2) (Z.shiftr s1 4) = a.
Proof.
  intros H. assert (Hs : s1 / 16 = a mod 4).
  { destruct H as [-> | ->]; [rewrite sx1_eq | rewrite sx1_tail_eq];
      unfold is_byte in *; div_mod_lia. }
  rewrite sx0_eq. unfold is_byte in *.
  rewrite lor_shiftl_add; bits_to_arith; try lia; try div_mod_lia.
Qed.

Lemma octet1 s2 : s2 = sx2 \/ s2 = sx2_tail ->
  Z.lor (Z.shiftl (Z.land sx1 15) 4) (Z.shiftr s2 2) = b.
Proof.
  intros H. assert (Hs : s2 / 4 = b mod 16).
  { destruct H as [-> | ->]; [rewrite sx2_eq | rewrite sx2_tail_eq];
      unfold is_byte in *; div_mod_lia. }
  rewrite sx1_eq. unfold is_byte in *.
  rewrite lor_shiftl_add; bits_to_arith; try lia; try div_mod_lia.
Qed.

Lemma octet2 : Z.lor (Z.shiftl (Z.land sx2 3) 6) sx3 = c.
Proof.
  rewrite sx2_eq, sx3_eq. unfold is_byte in *.
  rewrite lor_shiftl_add; bits_to_arith; try lia; try div_mod_lia.
Qed.
End Sextets.

Lemma list_ind3 {A} (P : list A -> Prop) :
  P [] -> (forall a, P [a]) -> (forall a b, P [a; b]) ->
  (forall a b c r, P r -> P (a :: b :: c :: r)) ->
  forall l, P l.
Proof.
  intros H0 H1 H2 H3.
  fix IH 1. intros [|a [|b [|c r]]].
  - exact H0.
  - apply H1.
  - apply H2.
  - apply H3. apply IH.
Qed.

Ltac b2a_facts x :=
  let Hp := fresh "Hp" in
  let Hi := fresh "Hi" in
  let Ha := fresh "Hasc" in
  destruct (b2a_range x) as (Hp & Hi & Ha);
  [ assumption
  | apply Z.eqb_neq in Hp; rewrite ?Hi, ?Hp ].

(** [b64decode] inverts [b64encode] on every byte string. *)
Lemma b64decode_b64encode (bs : bytes) :
  Forall is_byte bs -> b64decode (b64encode bs) = Some bs.
Proof.
  assert (Hz : is_byte 0) by (red; lia).
  induction bs as [|a|a b|a b c r IH] using list_ind3; intros Hbs.
  - reflexivity.
  - inversion_clear Hbs as [|? ? Ha _].
    destruct (sextet_ranges a 0 0 Ha Hz Hz) as (R0 & _ & R1 & _).
    cbn [b64encode b64decode].
    fold (sx0 a) (sx1_tail a).
    b2a_facts (sx0 a). b2a_facts (sx1_tail a).
    rewrite Z.eqb_refl. cbn [andb].
    rewrite (octet0 a 0 0 Ha Hz Hz) by auto. reflexivity.
  - inversion_clear Hbs as [|? ? Ha Hbs']. inversion_clear Hbs' as [|? ? Hb _].
    destruct (sextet_ranges a b 0 Ha Hb Hz) as (R0 & R1 & _ & _ & R2 & _).
    cbn [b64encode b64decode].
    fold (sx0 a) (sx1 a b) (sx2_tail b).
    b2a_facts (sx0 a). b2a_facts (sx1 a b). b2a_facts (sx2_tail b).
    rewrite Z.eqb_refl.
    rewrite (octet0 a b 0 Ha Hb Hz), (octet1 a b 0 Ha Hb Hz) by auto.
    reflexivity.
  - inversion_clear Hbs as [|? ? Ha Hbs']. inversion_clear Hbs' as [|? ? Hb Hbs].
    inversion_clear Hbs as [|? ? Hc Hr].
    destruct (sextet_ranges a b c Ha Hb Hc) as (R0 & R1 & _ & R2 & _ & R3).
    cbn [b64encode b64decode].
    fold (sx0 a) (sx1 a b) (sx2 b c) (sx3 c).
    b2a_facts (sx0 a). b2a_facts (sx1 a b). b2a_facts (sx2 b c).
    b2a_facts (sx3 c).
    rewrite (IH Hr).
    rewrite (octet0 a b c Ha Hb Hc), (octet1 a b c Ha Hb Hc),
      (octet2 a b c Ha Hb Hc) by auto.
    reflexivity.
Qed.

Lemma b64encode_ascii (bs : bytes) :
  Forall is_byte bs -> Forall is_ascii (b64encode bs).
Proof.
  assert (Hpad : is_ascii pad) by (red; unfold pad; lia).
  assert (Hz : is_byte 0) by (red; lia).
  induction bs as [|a|a b|a b c r IH] using list_ind3; intros Hbs.
  - constructor.
  - inversion_clear Hbs as [|? ? Ha _].
    destruct (sextet_ranges a 0 0 Ha Hz Hz) as (R0 & _ & R1 & _).
    cbn [b64encode]. fold (sx0 a) (sx1_tail a).
    repeat (constructor; [first [exact Hpad | now apply b2a_range]|]).
    constructor.
  - inversion_clear Hbs as [|? ? Ha Hbs']. inversion_clear Hbs' as [|? ? Hb _].
    destruct (sextet_ranges a b 0 Ha Hb Hz) as (R0 & R1 & _ & _ & R2 & _).
    cbn [b64encode]. fold (sx0 a) (sx1 a b) (sx2_tail b).
    repeat (constructor; [first [exact Hpad | now apply b2a_range]|]).
    constructor.
  - inversion_clear Hbs as [|? ? Ha Hbs']. inversion_clear Hbs' as [|? ? Hb Hbs].
    inversion_clear Hbs as [|? ? Hc Hr].
    destruct (sextet_ranges a b c Ha Hb Hc) as (R0 & R1 & _ & R2 & _ & R3).
    cbn [b64encode]. fold (sx0 a) (sx1 a b) (sx2 b c) (sx3 c).
    repeat (constructor; [now apply b2a_range|]). auto.
Qed.

End Base64.

(** ** UTF-8, as [str.encode("utf-8")] and [bytes.decode("utf-8")] *)

Module Utf8.

(** One code point; [None] is [UnicodeEncodeError] (a surrogate). *)
Definition encode_cp (c : Z) : option bytes :=
  if c <? 0 then None
  else if c <? 128 then Some [c]
  else if c <? 2048 then
    Some [Z.lor 192 (Z.shiftr c 6); Z.lor 128 (Z.land c 63)]
  else if c <? 65536 then
    if (55296 <=? c) && (c <=? 57343) then None
    else Some [Z.lor 224 (Z.shiftr c 12);
               Z.lor 128 (Z.land (Z.shiftr c 6) 63);
               Z.lor 128 (Z.land c 63)]
  else if c <? 1114112 then
    Some [Z.lor 240 (Z.shiftr c 18);
          Z.lor 128 (Z.land (Z.shiftr c 12) 63);
          Z.lor 128 (Z.land (Z.shiftr c 6) 63);
          Z.lor 128 (Z.land c 63)]
  else None.

Fixpoint encode (s : str) : option bytes :=
  match s with
  | [] => Some []
  | c :: r =>
      match encode_cp c, encode r with
      | Some b, Some br => Some (b ++ br)
      | _, _ => None
      end
  end.

(** A continuation octet, [10xxxxxx]. *)
Definition is_cont (b : Z) : bool := (128 <=? b) && (b <? 192).

Definition push (c : Z) (r : option str) : option str :=
  match r with Some s => Some (c :: s) | None => None end.

(** Strict decoding; [None] is [UnicodeDecodeError]: a stray or missing
    continuation octet, an overlong form, a surrogate, or a value beyond
    U+10FFFF. *)
Fixpoint decode (bs : bytes) : option str :=
  match bs with
  | [] => Some []
  | b0 :: r0 =>
      if b0 <? 0 then None
      else if b0 <? 128 then push b0 (decode r0)
      else if b0 <? 192 then None
      else if b0 <? 224 then
        match r0 with
        | b1 :: r1 =>
            let c := Z.lor (Z.shiftl (Z.land b0 31) 6) (Z.land b1 63) in
            if is_cont b1 && (128 <=? c) then push c (decode r1) else None
        | _ => None
        end
      else if b0 <? 240 then
        match r0 with
        | b1 :: b2 :: r2 =>
            let c := Z.lor (Z.shiftl (Z.land b0 15) 12)
                       (Z.lor (Z.shiftl (Z.land b1 63) 6) (Z.land b2 63)) in
            if is_cont b1 && is_cont b2 && (2048 <=? c)
               && negb ((55296 <=? c) && (c <=? 57343))
            then push c (decode r2) else None
        | _ => None
        end
      else if b0 <? 248 then
        match r0 with
        | b1 :: b2 :: b3 :: r3 =>
            let c := Z.lor (Z.shiftl (Z.land b0 7) 18)
                       (Z.lor (Z.shiftl (Z.land b1 63) 12)
                          (Z.lor (Z.shiftl (Z.land b2 63) 6) (Z.land b3 63))) in
            if is_cont b1 && is_cont b2 && is_cont b3
               && (65536 <=? c) && (c <? 1114112)
            then push c (decode r3) else None
        | _ => None
        end
      else None
  end.

Lemma land_7 a : Z.land a 7 = a mod 8.
Proof. apply (land_low a 3). lia. Qed.
Lemma land_31 a : Z.land a 31 = a mod 32.
Proof. apply (land_low a 5). lia. Qed.

(** A lead or continuation octet: a tag above six (or fewer) payload bits. *)
Lemma lor_tag tag k x :
  0 <= k -> 0 <= x < 2 ^ k -> Z.lor (tag * 2 ^ k) x = tag * 2 ^ k + x.
Proof.
  intros Hk Hx. rewrite <- (lor_shiftl_add tag x k) by assumption.
  rewrite Z.shiftl_mul_pow2 by assumption. reflexivity.
Qed.

Lemma cont_octet x : 0 <= x ->
  Z.lor 128 (Z.land x 63) = 128 + x mod 64.
Proof.
  intros Hx. rewrite land_63. apply (lor_tag 2 6); [lia|].
  change (2 ^ 6) with 64. div_mod_lia.
Qed.

Lemma cont_octet_payload x :
  Z.land (128 + x mod 64) 63 = x mod 64 /\ is_cont (128 + x mod 64) = true.
Proof.
  rewrite land_63. unfold is_cont. split; [div_mod_lia|].
  apply andb_true_intro. split; [apply Z.leb_le | apply Z.ltb_lt]; div_mod_lia.
Qed.

Lemma is_cont_tag l : 0 <= l < 64 ->
  is_cont (128 + l) = true /\ Z.land (128 + l) 63 = l.
Proof.
  intros Hl. unfold is_cont. rewrite land_63. split; [|div_mod_lia].
  decide_tests; reflexivity.
Qed.

Lemma decode_cons b0 r0 :
  decode (b0 :: r0) =
  if b0 <? 0 then None
  else if b0 <? 128 then push b0 (decode r0)
  else if b0 <? 192 then None
  else if b0 <? 224 then
    match r0 with
    | b1 :: r1 =>
        let c := Z.lor (Z.shiftl (Z.land b0 31) 6) (Z.land b1 63) in
        if is_cont b1 && (128 <=? c) then push c (decode r1) else None
    | _ => None
    end
  else if b0 <? 240 then
    match r0 with
    | b1 :: b2 :: r2 =>
        let c := Z.lor (Z.shiftl (Z.land b0 15) 12)
                   (Z.lor (Z.shiftl (Z.land b1 63) 6) (Z.land b2 63)) in
        if is_cont b1 && is_cont b2 && (2048 <=? c)
           && negb ((55296 <=? c) && (c <=? 57343))
        then push c (decode r2) else None
    | _ => None
    end
  else if b0 <? 248 then
    match r0 with
    | b1 :: b2 :: b3 :: r3 =>
        let c := Z.lor (Z.shiftl (Z.land b0 7) 18)
                   (Z.lor (Z.shiftl (Z.land b1 63) 12)
                      (Z.lor (Z.shiftl (Z.land b2 63) 6) (Z.land b3 63))) in
        if is_cont b1 && is_cont b2 && is_cont b3
           && (65536 <=? c) && (c <? 1114112)
        then push c (decode r3) else None
    | _ => None
    end
  else None.
Proof. reflexivity. Qed.


Lemma decode1 c rest : 0 <= c < 128 ->
  decode (c :: rest) = push c (decode rest).
Proof.
  intros Hc. rewrite decode_cons. ltb_false c 0. ltb_true c 128.
  reflexivity.
Qed.

Lemma decode2 h l rest : 2 <= h < 32 -> 0 <= l < 64 ->
  decode (192 + h :: 128 + l :: rest) = push (64 * h + l) (decode rest).
Proof.
  intros Hh Hl. destruct (is_cont_tag l Hl) as [Hc El].
  rewrite decode_cons.
  ltb_false (192 + h) 0. ltb_false (192 + h) 128. ltb_false (192 + h) 192.
  ltb_true (192 + h) 224. cbv beta iota zeta.
  rewrite Hc, El, land_31.
  replace ((192 + h) mod 32) with h by div_mod_lia.
  rewrite lor_shiftl_add by (change (2 ^ 6) with 64; lia).
  change (2 ^ 6) with 64. replace (h * 64 + l) with (64 * h + l) by lia.
  leb_true 128 (64 * h + l). reflexivity.
Qed.

Lemma decode3 h m l rest :
  0 <= h < 16 -> 0 <= m < 64 -> 0 <= l < 64 ->
  2048 <= 4096 * h + 64 * m + l ->
  ~ (55296 <= 4096 * h + 64 * m + l <= 57343) ->
  decode (224 + h :: 128 + m :: 128 + l :: rest)
  = push (4096 * h + 64 * m + l) (decode rest).
Proof.
  intros Hh Hm Hl Hlo Hsur.
  destruct (is_cont_tag l Hl) as [Hc El]. destruct (is_cont_tag m Hm) as [Hd Em].
  rewrite decode_cons.
  ltb_false (224 + h) 0. ltb_false (224 + h) 128. ltb_false (224 + h) 192.
  ltb_false (224 + h) 224. ltb_true (224 + h) 240. cbv beta iota zeta.
  rewrite Hc, El, Hd, Em, land_15.
  replace ((224 + h) mod 16) with h by div_mod_lia.
  rewrite (lor_shiftl_add m) by (change (2 ^ 6) with 64; lia).
  rewrite lor_shiftl_add
    by (change (2 ^ 6) with 64; change (2 ^ 12) with 4096; lia).
  change (2 ^ 6) with 64. change (2 ^ 12) with 4096.
  replace (h * 4096 + (m * 64 + l)) with (4096 * h + 64 * m + l) by lia.
  leb_true 2048 (4096 * h + 64 * m + l).
  destruct (Z.leb_spec 55296 (4096 * h + 64 * m + l));
    destruct (Z.leb_spec (4096 * h + 64 * m + l) 57343);
    try reflexivity.
  lia.
Qed.

Lemma decode4 g h m l rest :
  0 <= g < 8 -> 0 <= h < 64 -> 0 <= m < 64 -> 0 <= l < 64 ->
  65536 <= 262144 * g + 4096 * h + 64 * m + l < 1114112 ->
  decode (240 + g :: 128 + h :: 128 + m :: 128 + l :: rest)
  = push (262144 * g + 4096 * h + 64 * m + l) (decode rest).
Proof.
  intros Hg Hh Hm Hl Hr.
  destruct (is_cont_tag l Hl) as [Hc El]. destruct (is_cont_tag m Hm) as [Hd Em].
  destruct (is_cont_tag h Hh) as [He Eh].
  rewrite decode_cons.
  ltb_false (240 + g) 0. ltb_false (240 + g) 128. ltb_false (240 + g) 192.
  ltb_false (240 + g) 224. ltb_false (240 + g) 240. ltb_true (240 + g) 248.
  cbv beta iota zeta.
  rewrite Hc, El, Hd, Em, He, Eh, land_7.
  replace ((240 + g) mod 8) with g by div_mod_lia.
  rewrite (lor_shiftl_add m) by (change (2 ^ 6) with 64; lia).
  rewrite (lor_shiftl_add h)
    by (change (2 ^ 6) with 64; change (2 ^ 12) with 4096; lia).
  rewrite lor_shiftl_add
    by (change (2 ^ 6) with 64; change (2 ^ 12) with 4096;
        change (2 ^ 18) with 262144; lia).
  change (2 ^ 6) with 64. change (2 ^ 12) with 4096.
  change (2 ^ 18) with 262144.
  replace (g * 262144 + (h * 4096 + (m * 64 + l)))
    with (262144 * g + 4096 * h + 64 * m + l) by lia.
  leb_true 65536 (262144 * g + 4096 * h + 64 * m + l).
  ltb_true (262144 * g + 4096 * h + 64 * m + l) 1114112.
  reflexivity.
Qed.

Lemma lor_192 x : 0 <= x < 64 -> Z.lor 192 x = 192 + x.
Proof. intros H. apply (lor_tag 3 6 x); [lia | exact H]. Qed.
Lemma lor_224 x : 0 <= x < 16 -> Z.lor 224 x = 224 + x.
Proof. intros H. apply (lor_tag 14 4 x); [lia | exact H]. Qed.
Lemma lor_240 x : 0 <= x < 8 -> Z.lor 240 x = 240 + x.
Proof. intros H. apply (lor_tag 30 3 x); [lia | exact H]. Qed.

(** The octets of a code point, as arithmetic. *)
Lemma encode_cp_arith c :
  encode_cp c =
  if c <? 0 then None
  else if c <? 128 then Some [c]
  else if c <? 2048 then Some [192 + c / 64; 128 + c mod 64]
  else if c <? 65536 then
    if (55296 <=? c) && (c <=? 57343) then None
    else Some [224 + c / 4096; 128 + (c / 64) mod 64; 128 + c mod 64]
  else if c <? 1114112 then
    Some [240 + c / 262144; 128 + (c / 4096) mod 64;
          128 + (c / 64) mod 64; 128 + c mod 64]
  else None.
Proof.
  unfold encode_cp.
  destruct (Z.ltb_spec c 0); [reflexivity|].
  rewrite !cont_octet by (try apply Z.shiftr_nonneg; lia).
  bits_to_arith.
  destruct (Z.ltb_spec c 128); [reflexivity|].
  destruct (Z.ltb_spec c 2048).
  { rewrite lor_192 by div_mod_lia. reflexivity. }
  destruct (Z.ltb_spec c 65536).
  { rewrite lor_224 by div_mod_lia. reflexivity. }
  destruct (Z.ltb_spec c 1114112); [|reflexivity].
  rewrite lor_240 by div_mod_lia. reflexivity.
Qed.

Lemma decode_encode_cp c bs rest :
  encode_cp c = Some bs -> decode (bs ++ rest) = push c (decode rest).
Proof.
  rewrite encode_cp_arith.
  destruct (Z.ltb_spec c 0); [discriminate|].
  destruct (Z.ltb_spec c 128).
  { intros [= <-]. apply decode1. lia. }
  destruct (Z.ltb_spec c 2048).
  { intros E. cbv iota in E. apply Some_inj in E. subst bs. cbn [app].
    rewrite decode2 by div_mod_lia. f_equal. div_mod_lia. }
  destruct (Z.ltb_spec c 65536).
  { destruct (Z.leb_spec 55296 c); destruct (Z.leb_spec c 57343);
      cbn [andb]; try discriminate; intros E; cbv iota in E;
      apply Some_inj in E; subst bs; cbn [app];
      (rewrite decode3 by div_mod_lia); f_equal; div_mod_lia. }
  destruct (Z.ltb_spec c 1114112); [|discriminate].
  intros E. cbv iota in E. apply Some_inj in E. subst bs. cbn [app].
  rewrite decode4 by div_mod_lia. f_equal. div_mod_lia.
Qed.

(** [bytes.decode("utf-8")] inverts [str.encode("utf-8")]. *)
Lemma decode_encode (s : str) (bs : bytes) :
  encode s = Some bs -> decode bs = Some s.
Proof.
  revert bs. induction s as [|c s IH]; intros bs; cbn [encode].
  - intros [= <-]. reflexivity.
  - destruct (encode_cp c) as [b|] eqn:Ec; [|discriminate].
    destruct (encode s) as [br|]; [|discriminate].
    intros [= <-]. rewrite (decode_encode_cp c b br Ec), (IH br eq_refl).
    reflexivity.
Qed.

Lemma encode_cp_bytes c bs :
  encode_cp c = Some bs -> Forall is_byte bs.
Proof.
  rewrite encode_cp_arith. unfold is_byte.
  destruct (Z.ltb_spec c 0); [discriminate|].
  destruct (Z.ltb_spec c 128).
  { intros [= <-]. repeat constructor; lia. }
  destruct (Z.ltb_spec c 2048).
  { intros E. cbv iota in E. apply Some_inj in E. subst bs.
    repeat constructor; div_mod_lia. }
  destruct (Z.ltb_spec c 65536).
  { destruct ((55296 <=? c) && (c <=? 57343)); [discriminate|].
    intros E. cbv iota in E. apply Some_inj in E. subst bs.
    repeat constructor; div_mod_lia. }
  destruct (Z.ltb_spec c 1114112); [|discriminate].
  intros E. cbv iota in E. apply Some_inj in E. subst bs.
  repeat constructor; div_mod_lia.
Qed.

Lemma encode_bytes s bs : encode s = Some bs -> Forall is_byte bs.
Proof.
  revert bs. induction s as [|c s IH]; intros bs; cbn [encode].
  - intros [= <-]. constructor.
  - destruct (encode_cp c) as [b|] eqn:Ec; [|discriminate].
    destruct (encode s) as [br|]; [|discriminate].
    intros [= <-]. apply Forall_app_intro; eauto using encode_cp_bytes.
Qed.

(** Every string of scalar values has an encoding. *)
Lemma encode_total s : Forall scalar s -> exists bs, encode s = Some bs.
Proof.
  induction 1 as [|c s Hc _ [br IH]]; cbn [encode].
  - eexists; reflexivity.
  - rewrite IH. rewrite encode_cp_arith.
    unfold scalar, scalarb in Hc.
    apply andb_prop in Hc. destruct Hc as [Hc Hs].
    apply andb_prop in Hc. destruct Hc as [H0 H1].
    apply Z.leb_le in H0. apply Z.ltb_lt in H1.
    apply negb_true_iff in Hs. rewrite Hs.
    decide_tests; eexists; reflexivity.
Qed.

(** An ASCII string is its own encoding. *)
Lemma encode_ascii s : Forall is_ascii s -> encode s = Some s.
Proof.
  induction 1 as [|c s Hc _ IH]; cbn [encode]; [reflexivity|].
  rewrite IH. unfold encode_cp. red in Hc. decide_tests; reflexivity.
Qed.

Lemma decode_ascii s : Forall is_ascii s -> decode s = Some s.
Proof.
  induction 1 as [|c s Hc _ IH]; [reflexivity|].
  rewrite decode1, IH by exact Hc. reflexivity.
Qed.

End Utf8.

(** ** JSON documents, as [json.dumps] writes and [json.loads] reads them

    The documents of this client hold strings, integers, booleans, lists
    and string-keyed dictionaries; a dictionary is kept as the list of its
    items in insertion order. Floating-point numbers are outside the
    model. *)

Module Json.

#[local] Set Warnings "-register-all".

Inductive json : Type :=
| JNull
| JBool (b : bool)
| JInt (n : Z)
| JStr (s : str)
| JArr (items : list json)
| JObj (items : list (str * json)).

(** *** Writing *)

(** One digit of ['{0:04x}'.format(n)]. *)
Definition hex_digit (d : Z) : Z := if d <? 10 then 48 + d else 87 + d.

Definition hex4 (n : Z) : str :=
  [hex_digit ((n / 4096) mod 16); hex_digit ((n / 256) mod 16);
   hex_digit ((n / 16) mod 16); hex_digit (n mod 16)].

(** [ESCAPE_ASCII.sub(replace, s)] of [py_encode_basestring_ascii], for one
    character. *)
Definition escape_cp (c : Z) : str :=
  if c =? 34 then [92; 34]
  else if c =? 92 then [92; 92]
  else if c =? 8 then [92; 98]
  else if c =? 12 then [92; 102]
  else if c =? 10 then [92; 110]
  else if c =? 13 then [92; 114]
  else if c =? 9 then [92; 116]
  else if (32 <=? c) && (c <=? 126) then [c]
  else if c <? 65536 then 92 :: 117 :: hex4 c
  else
    let n := c - 65536 in
    let s1 := Z.lor 55296 (Z.land (Z.shiftr n 10) 1023) in
    let s2 := Z.lor 56320 (Z.land n 1023) in
    (92 :: 117 :: hex4 s1) ++ (92 :: 117 :: hex4 s2).

Definition encode_basestring_ascii (s : str) : str :=
  34 :: flat_map escape_cp s ++ [34].

Fixpoint uint_chars (d : Decimal.uint) : str :=
  match d with
  | Decimal.Nil => []
  | Decimal.D0 r => 48 :: uint_chars r
  | Decimal.D1 r => 49 :: uint_chars r
  | Decimal.D2 r => 50 :: uint_chars r
  | Decimal.D3 r => 51 :: uint_chars r
  | Decimal.D4 r => 52 :: uint_chars r
  | Decimal.D5 r => 53 :: uint_chars r
  | Decimal.D6 r => 54 :: uint_chars r
  | Decimal.D7 r => 55 :: uint_chars r
  | Decimal.D8 r => 56 :: uint_chars r
  | Decimal.D9 r => 57 :: uint_chars r
  end.

(** [int.__repr__] *)
Definition int_repr (n : Z) : str :=
  match Z.to_int n with
  | Decimal.Pos d => uint_chars d
  | Decimal.Neg d => 45 :: uint_chars d
  end.

Fixpoint join (sep : str) (parts : list str) : str :=
  match parts with
  | [] => []
  | [p] => p
  | p :: rest => p ++ sep ++ join sep rest
  end.

Definition item_separator : str := [44; 32].
Definition key_separator : str := [58; 32].

(** [json.dumps(v)] with its default arguments. *)
Fixpoint dumps (v : json) : str :=
  match v with
  | JNull => lit "null"
  | JBool true => lit "true"
  | JBool false => lit "false"
  | JInt n => int_repr n
  | JStr s => encode_basestring_ascii s
  | JArr items => 91 :: join item_separator (List.map dumps items) ++ [93]
  | JObj items =>
      123 :: join item_separator
               (List.map (fun kv =>
                            match kv with
                            | (k, x) =>
                                encode_basestring_ascii k ++ key_separator
                                ++ dumps x
                            end) items)
          ++ [125]
  end.

(** *** Reading *)

Definition is_ws (c : Z) : bool :=
  (c =? 32) || (c =? 9) || (c =? 10) || (c =? 13).

Fixpoint skip_ws (s : str) : str :=
  match s with
  | c :: r => if is_ws c then skip_ws r else s
  | [] => []
  end.

Definition hex_val (c : Z) : option Z :=
  if (48 <=? c) && (c <=? 57) then Some (c - 48)
  else if (97 <=? c) && (c <=? 102) then Some (c - 87)
  else if (65 <=? c) && (c <=? 70) then Some (c - 55)
  else None.

(** [_decode_uXXXX] *)
Definition decode_uXXXX (a b c d : Z) : option Z :=
  match hex_val a, hex_val b, hex_val c, hex_val d with
  | Some x, Some y, Some z, Some w => Some (((x * 16 + y) * 16 + z) * 16 + w)
  | _, _, _, _ => None
  end.

(** The [BACKSLASH] table. *)
Definition backslash (e : Z) : option Z :=
  if e =? 34 then Some 34
  else if e =? 92 then Some 92
  else if e =? 47 then Some 47
  else if e =? 98 then Some 8
  else if e =? 102 then Some 12
  else if e =? 110 then Some 10
  else if e =? 114 then Some 13
  else if e =? 116 then Some 9
  else None.

Definition push (c : Z) (r : option (str * str)) : option (str * str) :=
  match r with
  | Some (s, rest) => Some (c :: s, rest)
  | None => None
  end.

(** [py_scanstring], strict, from the character after the opening quote:
    the string and what follows its closing quote. *)
Fixpoint scanstring (s : str) : option (str * str) :=
  match s with
  | [] => None
  | c :: r =>
      if c =? 34 then Some ([], r)
      else if c =? 92 then
        match r with
        | [] => None
        | e :: r1 =>
            if e =? 117 then
              match r1 with
              | h1 :: h2 :: h3 :: h4 :: r2 =>
                  match decode_uXXXX h1 h2 h3 h4 with
                  | None => None
                  | Some uni =>
                      if (55296 <=? uni) && (uni <=? 56319) then
                        match r2 with
                        | b :: u :: g1 :: g2 :: g3 :: g4 :: r3 =>
                            if (b =? 92) && (u =? 117) then
                              match decode_uXXXX g1 g2 g3 g4 with
                              | None => None
                              | Some uni2 =>
                                  if (56320 <=? uni2) && (uni2 <=? 57343)
                                  then
                                    push (65536
                                          + Z.lor
                                              (Z.shiftl (uni - 55296) 10)
                                              (uni2 - 56320))
                                         (scanstring r3)
                                  else push uni (scanstring r2)
                              end
                            else push uni (scanstring r2)
                        | _ => push uni (scanstring r2)
                        end
                      else push uni (scanstring r2)
                  end
              | _ => None
              end
            else
              match backslash e with
              | Some ch => push ch (scanstring r1)
              | None => None
              end
        end
      else if c <? 32 then None
      else push c (scanstring r)
  end.

Definition digit_of (c : Z) : option (Decimal.uint -> Decimal.uint) :=
  if c =? 48 then Some Decimal.D0
  else if c =? 49 then Some Decimal.D1
  else if c =? 50 then Some Decimal.D2
  else if c =? 51 then Some Decimal.D3
  else if c =? 52 then Some Decimal.D4
  else if c =? 53 then Some Decimal.D5
  else if c =? 54 then Some Decimal.D6
  else if c =? 55 then Some Decimal.D7
  else if c =? 56 then Some Decimal.D8
  else if c =? 57 then Some Decimal.D9
  else None.

(** The longest run of digits at the head of [s]. *)
Fixpoint scan_digits (s : str) : Decimal.uint * str :=
  match s with
  | [] => (Decimal.Nil, [])
  | c :: r =>
      match digit_of c with
      | Some d => let (ds, rest) := scan_digits r in (d ds, rest)
      | None => (Decimal.Nil, s)
      end
  end.

(** The integer part of [NUMBER_RE]: a lone zero, or a run of digits that
    starts with a non-zero one. *)
Definition scan_uint (s : str) : option (Decimal.uint * str) :=
  match s with
  | [] => None
  | c :: r =>
      if c =? 48 then Some (Decimal.D0 Decimal.Nil, r)
      else match scan_digits s with
           | (Decimal.Nil, _) => None
           | (ds, rest) => Some (ds, rest)
           end
  end.

(** A fraction or an exponent would make the number a float. *)
Definition float_follows (s : str) : bool :=
  match s with
  | c :: _ => (c =? 46) || (c =? 101) || (c =? 69)
  | [] => false
  end.

Definition scan_number (s : str) : option (json * str) :=
  match s with
  | [] => None
  | c :: r =>
      if c =? 45 then
        match scan_uint r with
        | Some (d, rest) =>
            if float_follows rest then None
            else Some (JInt (Z.of_int (Decimal.Neg d)), rest)
        | None => None
        end
      else
        match scan_uint s with
        | Some (d, rest) =>
            if float_follows rest then None
            else Some (JInt (Z.of_int (Decimal.Pos d)), rest)
        | None => None
        end
  end.

Fixpoint strip_prefix (p s : str) : option str :=
  match p, s with
  | [], _ => Some s
  | a :: p', b :: s' => if a =? b then strip_prefix p' s' else None
  | _, [] => None
  end.

(** [scan_once] of the scanner, with [JSONArray] and [JSONObject]; [fuel]
    bounds the number of values read. *)
Fixpoint scan_once (fuel : nat) (s : str) : option (json * str) :=
  match fuel with
  | O => None
  | S f =>
      match s with
      | [] => None
      | c :: r =>
          if c =? 34 then
            match scanstring r with
            | Some (x, rest) => Some (JStr x, rest)
            | None => None
            end
          else if c =? 123 then
            match skip_ws r with
            | c1 :: r1 =>
                if c1 =? 125 then Some (JObj [], r1)
                else
                  match object_items f (c1 :: r1) with
                  | Some (l, rest) => Some (JObj l, rest)
                  | None => None
                  end
            | [] => None
            end
          else if c =? 91 then
            match skip_ws r with
            | c1 :: r1 =>
                if c1 =? 93 then Some (JArr [], r1)
                else
                  match array_items f (c1 :: r1) with
                  | Some (l, rest) => Some (JArr l, rest)
                  | None => None
                  end
            | [] => None
            end
          else if c =? 110 then
            match strip_prefix (lit "ull") r with
            | Some rest => Some (JNull, rest)
            | None => None
            end
          else if c =? 116 then
            match strip_prefix (lit "rue") r with
            | Some rest => Some (JBool true, rest)
            | None => None
            end
          else if c =? 102 then
            match strip_prefix (lit "alse") r with
            | Some rest => Some (JBool false, rest)
            | None => None
            end
          else scan_number s
      end
  end

with array_items (fuel : nat) (s : str) : option (list json * str) :=
  match fuel with
  | O => None
  | S f =>
      match scan_once f s with
      | None => None
      | Some (v, r) =>
          match skip_ws r with
          | c :: r1 =>
              if c =? 93 then Some ([v], r1)
              else if c =? 44 then
                match array_items f (skip_ws r1) with
                | Some (l, rest) => Some (v :: l, rest)
                | None => None
                end
              else None
          | [] => None
          end
      end
  end

with object_items (fuel : nat) (s : str) : option (list (str * json) * str) :=
  match fuel with
  | O => None
  | S f =>
      match s with
      | c :: r =>
          if c =? 34 then
            match scanstring r with
            | None => None
            | Some (k, r1) =>
                match skip_ws r1 with
                | c2 :: r2 =>
                    if c2 =? 58 then
                      match scan_once f (skip_ws r2) with
                      | None => None
                      | Some (v, r3) =>
                          match skip_ws r3 with
                          | c4 :: r4 =>
                              if c4 =? 125 then Some ([(k, v)], r4)
                              else if c4 =? 44 then
                                match object_items f (skip_ws r4) with
                                | Some (l, rest) => Some ((k, v) :: l, rest)
                                | None => None
                                end
                              else None
                          | [] => None
                          end
                      end
                    else None
                | [] => None
                end
            end
          else None
      | [] => None
      end
  end.

(** [json.loads(s)]: one value between optional white space, and nothing
    else. *)
Definition loads (s : str) : option json :=
  match scan_once (S (List.length s)) (skip_ws s) with
  | Some (v, rest) =>
      match skip_ws rest with
      | [] => Some v
      | _ => None
      end
  | None => None
  end.

Definition sample : json :=
  JObj [(lit "BlobPath", JStr (lit "https://a/b?x=" ++ [34; 121; 34]));
        (lit "RawDataSize", JInt 1024);
        (lit "Flags", JArr [JBool true; JNull; JInt (-7); JArr []; JObj []]);
        (lit "Name", JStr [233; 128512; 10; 92])].

Example loads_dumps_sample : loads (dumps sample) = Some sample.
Proof. vm_compute. reflexivity. Qed.

(** Single quotes stand for double quotes in the examples' expected texts. *)
Definition dq (s : str) : str :=
  List.map (fun c => if c =? 39 then 34 else c) s.

Example dumps_small :
  dumps (JObj [(lit "a", JArr [JInt 10; JBool false]); (lit "b", JStr [233])])
  = dq (lit "{'a': [10, false], 'b': '\u00e9'}").
Proof. vm_compute. reflexivity. Qed.

(** *** Reading back what was written *)

(** A code point is well formed when it is a Unicode scalar value; a
    document is well formed when all its strings and keys are. *)
Definition str_wf (s : str) : Prop := Forall scalar s.

Lemma scalar_range c :
  scalar c -> 0 <= c < 1114112 /\ ~ (55296 <= c <= 57343).
Proof.
  unfold scalar, scalarb. intros H.
  apply andb_prop in H. destruct H as [H Hs].
  apply andb_prop in H. destruct H as [H0 H1].
  apply Z.leb_le in H0. apply Z.ltb_lt in H1.
  apply negb_true_iff, andb_false_iff in Hs.
  split; [lia|]. destruct Hs as [Hs | Hs]; apply Z.leb_gt in Hs; lia.
Qed.

Lemma hex_val_digit d : 0 <= d < 16 -> hex_val (hex_digit d) = Some d.
Proof.
  intros Hd. unfold hex_digit, hex_val.
  destruct (Z.ltb_spec d 10).
  - leb_true 48 (48 + d). leb_true (48 + d) 57. cbn [andb]. f_equal. lia.
  - leb_true 48 (87 + d). leb_false (87 + d) 57.
    leb_true 97 (87 + d). leb_true (87 + d) 102. cbn [andb]. f_equal. lia.
Qed.

Lemma hex_digit_ascii d : 0 <= d < 16 -> is_ascii (hex_digit d).
Proof.
  intros Hd. unfold hex_digit, is_ascii. destruct (Z.ltb_spec d 10); lia.
Qed.

Lemma decode_hex4 n :
  0 <= n < 65536 ->
  match hex4 n with
  | [a; b; c; d] => decode_uXXXX a b c d = Some n
  | _ => False
  end.
Proof.
  intros Hn. unfold hex4, decode_uXXXX.
  rewrite !hex_val_digit by div_mod_lia. f_equal. div_mod_lia.
Qed.

Lemma scanstring_plain c tail :
  32 <= c -> c <> 34 -> c <> 92 ->
  scanstring (c :: tail) = push c (scanstring tail).
Proof.
  intros H1 H2 H3. cbn [scanstring].
  rewrite (proj2 (Z.eqb_neq c 34)), (proj2 (Z.eqb_neq c 92)) by assumption.
  ltb_false c 32. reflexivity.
Qed.

Lemma scanstring_u h1 h2 h3 h4 r2 uni :
  decode_uXXXX h1 h2 h3 h4 = Some uni ->
  ~ (55296 <= uni <= 56319) ->
  scanstring (92 :: 117 :: h1 :: h2 :: h3 :: h4 :: r2)
  = push uni (scanstring r2).
Proof.
  intros Hd Hu. cbn [scanstring]. change (92 =? 34) with false.
  change (92 =? 92) with true. change (117 =? 117) with true.
  cbv iota. rewrite Hd.
  destruct (Z.leb_spec 55296 uni); [|reflexivity].
  leb_false uni 56319. reflexivity.
Qed.

Lemma scanstring_pair h1 h2 h3 h4 g1 g2 g3 g4 r3 uni uni2 :
  decode_uXXXX h1 h2 h3 h4 = Some uni ->
  decode_uXXXX g1 g2 g3 g4 = Some uni2 ->
  55296 <= uni <= 56319 ->
  56320 <= uni2 <= 57343 ->
  scanstring (92 :: 117 :: h1 :: h2 :: h3 :: h4
              :: 92 :: 117 :: g1 :: g2 :: g3 :: g4 :: r3)
  = push (65536 + Z.lor (Z.shiftl (uni - 55296) 10) (uni2 - 56320))
      (scanstring r3).
Proof.
  intros Hd Hd2 Hu Hu2. cbn [scanstring]. change (92 =? 34) with false.
  change (92 =? 92) with true. change (117 =? 117) with true.
  cbv iota. rewrite Hd. leb_true 55296 uni. leb_true uni 56319.
  cbn [andb]. cbv iota. rewrite Hd2.
  leb_true 56320 uni2. leb_true uni2 57343. reflexivity.
Qed.

Lemma surrogates_of n :
  0 <= n < 1048576 ->
  Z.lor 55296 (Z.land (Z.shiftr n 10) 1023) = 55296 + n / 1024
  /\ Z.lor 56320 (Z.land n 1023) = 56320 + n mod 1024.
Proof.
  intros Hn. bits_to_arith. split.
  - rewrite (Utf8.lor_tag 54 10) by (change (2 ^ 10) with 1024; div_mod_lia).
    change (54 * 2 ^ 10) with 55296. div_mod_lia.
  - rewrite (Utf8.lor_tag 55 10) by (change (2 ^ 10) with 1024; div_mod_lia).
    reflexivity.
Qed.

(** The reader undoes the escaping of one character. *)
Lemma scanstring_escape_cp c tail :
  scalar c ->
  scanstring (escape_cp c ++ tail) = push c (scanstring tail).
Proof.
  intros Hc. apply scalar_range in Hc. destruct Hc as [Hr Hs].
  unfold escape_cp.
  destruct (Z.eqb_spec c 34) as [-> | N34]; [reflexivity|].
  destruct (Z.eqb_spec c 92) as [-> | N92]; [reflexivity|].
  destruct (Z.eqb_spec c 8) as [-> | N8]; [reflexivity|].
  destruct (Z.eqb_spec c 12) as [-> | N12]; [reflexivity|].
  destruct (Z.eqb_spec c 10) as [-> | N10]; [reflexivity|].
  destruct (Z.eqb_spec c 13) as [-> | N13]; [reflexivity|].
  destruct (Z.eqb_spec c 9) as [-> | N9]; [reflexivity|].
  destruct (Z.leb_spec 32 c) as [L32 | L32];
    [destruct (Z.leb_spec c 126) as [L126 | L126]|]; cbn [andb].
  - apply scanstring_plain; assumption.
  - destruct (Z.ltb_spec c 65536) as [Hb | Hb].
    + pose proof (decode_hex4 c ltac:(lia)) as Hd.
      destruct (hex4 c) as [|h1 [|h2 [|h3 [|h4 [|]]]]]; try contradiction.
      cbn [app]. apply scanstring_u; [assumption | lia].
    + cbv zeta. destruct (surrogates_of (c - 65536) ltac:(lia)) as [E1 E2].
      rewrite E1, E2.
      pose proof (decode_hex4 (55296 + (c - 65536) / 1024)
                    ltac:(div_mod_lia)) as Hd1.
      pose proof (decode_hex4 (56320 + (c - 65536) mod 1024)
                    ltac:(div_mod_lia)) as Hd2.
      destruct (hex4 (55296 + (c - 65536) / 1024))
        as [|h1 [|h2 [|h3 [|h4 [|]]]]]; try contradiction.
      destruct (hex4 (56320 + (c - 65536) mod 1024))
        as [|g1 [|g2 [|g3 [|g4 [|]]]]]; try contradiction.
      cbn [app].
      rewrite (scanstring_pair _ _ _ _ _ _ _ _ _ _ _ Hd1 Hd2)
        by div_mod_lia.
      f_equal.
      rewrite lor_shiftl_add by (change (2 ^ 10) with 1024; div_mod_lia).
      change (2 ^ 10) with 1024. div_mod_lia.
  - pose proof (decode_hex4 c ltac:(lia)) as Hd.
    ltb_true c 65536.
    destruct (hex4 c) as [|h1 [|h2 [|h3 [|h4 [|]]]]]; try contradiction.
    cbn [app]. apply scanstring_u; [assumption | lia].
Qed.

Lemma scanstring_body s rest :
  str_wf s ->
  scanstring (flat_map escape_cp s ++ 34 :: rest) = Some (s, rest).
Proof.
  induction 1 as [|c s Hc _ IH]; [reflexivity|].
  cbn [flat_map]. rewrite <- app_assoc, scanstring_escape_cp, IH by assumption.
  reflexivity.
Qed.

(** A written string is read back, whatever follows it. *)
Lemma scan_basestring s rest :
  str_wf s ->
  exists tail,
    encode_basestring_ascii s ++ rest = 34 :: tail
    /\ scanstring tail = Some (s, rest).
Proof.
  intros Hs. exists (flat_map escape_cp s ++ 34 :: rest). split.
  - unfold encode_basestring_ascii. cbn [app]. rewrite <- app_assoc.
    reflexivity.
  - apply scanstring_body; assumption.
Qed.

(** What may follow a value inside a written document: nothing, a comma,
    or a closing bracket or brace. *)
Definition closes (rest : str) : Prop :=
  match rest with
  | [] => True
  | c :: _ => c = 44 \/ c = 93 \/ c = 125
  end.

Lemma closes_skip_ws rest : closes rest -> skip_ws rest = rest.
Proof.
  destruct rest as [|c r]; [reflexivity|].
  intros [-> | [-> | ->]]; reflexivity.
Qed.

Lemma closes_scan_digits rest :
  closes rest -> scan_digits rest = (Decimal.Nil, rest).
Proof.
  destruct rest as [|c r]; [reflexivity|].
  intros [-> | [-> | ->]]; reflexivity.
Qed.

Lemma closes_float_follows rest : closes rest -> float_follows rest = false.
Proof.
  destruct rest as [|c r]; [reflexivity|].
  intros [-> | [-> | ->]]; reflexivity.
Qed.

Lemma scan_digits_uint_chars d rest :
  closes rest -> scan_digits (uint_chars d ++ rest) = (d, rest).
Proof.
  intros Hr. induction d as [|d IH|d IH|d IH|d IH|d IH|d IH|d IH|d IH|d IH|d IH];
    cbn [uint_chars app scan_digits];
    [ apply closes_scan_digits; assumption | .. ];
    (match goal with
     | |- context [digit_of ?c] =>
         change (digit_of c) with (Some ltac:(
           match c with
           | 48 => exact Decimal.D0 | 49 => exact Decimal.D1
           | 50 => exact Decimal.D2 | 51 => exact Decimal.D3
           | 52 => exact Decimal.D4 | 53 => exact Decimal.D5
           | 54 => exact Decimal.D6 | 55 => exact Decimal.D7
           | 56 => exact Decimal.D8 | 57 => exact Decimal.D9
           end))
     end); rewrite IH; reflexivity.
Qed.

(** A decimal numeral as [int.__repr__] writes it: a lone zero, or digits
    that start with a non-zero one. *)
Definition canonical (d : Decimal.uint) : Prop :=
  match d with
  | Decimal.Nil => False
  | Decimal.D0 Decimal.Nil => True
  | Decimal.D0 _ => False
  | _ => True
  end.

Lemma to_uint_canonical p : canonical (Pos.to_uint p).
Proof.
  pose proof (DecimalPos.Unsigned.to_uint_nonnil p) as Hnil.
  pose proof (DecimalPos.Unsigned.to_uint_nonzero p) as Hz.
  pose proof (DecimalPos.Unsigned.to_of (Pos.to_uint p)) as Hn.
  rewrite DecimalPos.Unsigned.of_to in Hn. cbn [N.to_uint] in Hn.
  destruct (Pos.to_uint p) as [|d| | | | | | | | | ]; cbn [canonical]; trivial.
  - congruence.
  - exfalso. rewrite DecimalFacts.unorm_D0 in Hn. unfold Decimal.unorm in Hn.
    pose proof (DecimalFacts.nzhead_nonzero d) as Hh.
    destruct (Decimal.nzhead d) as [|u| | | | | | | | | ] eqn:E;
      try discriminate.
    + exact (Hz Hn).
    + exact (Hh u eq_refl).
Qed.

Lemma to_int_canonical n :
  match Z.to_int n with
  | Decimal.Pos d | Decimal.Neg d => canonical d
  end.
Proof.
  destruct n as [|p|p]; cbn [Z.to_int].
  - exact I.
  - apply to_uint_canonical.
  - apply to_uint_canonical.
Qed.

Lemma scan_uint_canonical d rest :
  canonical d -> closes rest ->
  scan_uint (uint_chars d ++ rest) = Some (d, rest)
  /\ match uint_chars d ++ rest with
     | c :: _ => 48 <= c <= 57
     | [] => False
     end.
Proof.
  intros Hd Hr. unfold scan_uint.
  destruct d as [|d|d|d|d|d|d|d|d|d|d]; cbn [canonical] in Hd;
    try contradiction;
    try (rewrite scan_digits_uint_chars by assumption;
         cbn [uint_chars app]; split; [reflexivity | lia]).
  destruct d; try contradiction. cbn [uint_chars app]. split; [reflexivity | lia].
Qed.

(** A written integer is read back. *)
Lemma scan_number_int_repr n rest :
  closes rest -> scan_number (int_repr n ++ rest) = Some (JInt n, rest).
Proof.
  intros Hr. unfold int_repr.
  pose proof (to_int_canonical n) as Hc.
  pose proof (DecimalZ.of_to n) as Hn.
  destruct (Z.to_int n) as [d | d].
  - destruct (scan_uint_canonical d rest Hc Hr) as [Hs Hh].
    unfold scan_number. destruct (uint_chars d ++ rest) as [|c r] eqn:E;
      [contradiction|].
    rewrite (proj2 (Z.eqb_neq c 45)) by lia.
    rewrite Hs, closes_float_follows, Hn by assumption. reflexivity.
  - destruct (scan_uint_canonical d rest Hc Hr) as [Hs Hh].
    cbn [app scan_number]. change (45 =? 45) with true. cbv iota.
    rewrite Hs, closes_float_follows, Hn by assumption. reflexivity.
Qed.

Lemma int_repr_head n rest :
  match int_repr n ++ rest with
  | c :: _ => c = 45 \/ 48 <= c <= 57
  | [] => False
  end.
Proof.
  unfold int_repr. pose proof (to_int_canonical n) as Hc.
  destruct (Z.to_int n) as [d | d].
  - destruct d; try contradiction; cbn [uint_chars app]; lia.
  - cbn [app]. lia.
Qed.

Fixpoint wfb (v : json) : bool :=
  match v with
  | JStr s => forallb scalarb s
  | JArr items => forallb wfb items
  | JObj items =>
      forallb (fun kv =>
                 match kv with
                 | (k, x) => forallb scalarb k && wfb x
                 end) items
  | _ => true
  end.

Definition wf (v : json) : Prop := wfb v = true.

(** The number of values in a document, the fuel that reading it takes. *)
Fixpoint weight (v : json) : nat :=
  match v with
  | JArr items => S (list_sum (List.map (fun x => S (weight x)) items))
  | JObj items =>
      S (list_sum (List.map (fun kv =>
                               match kv with (_, x) => S (weight x) end)
                     items))
  | _ => 1%nat
  end.

Section JsonInduction.
Variable P : json -> Prop.
Hypothesis HNull : P JNull.
Hypothesis HBool : forall b, P (JBool b).
Hypothesis HInt : forall n, P (JInt n).
Hypothesis HStr : forall s, P (JStr s).
Hypothesis HArr : forall items, Forall P items -> P (JArr items).
Hypothesis HObj :
  forall items, Forall (fun kv => P (snd kv)) items -> P (JObj items).

Fixpoint json_nested_ind (v : json) : P v :=
  match v with
  | JNull => HNull
  | JBool b => HBool b
  | JInt n => HInt n
  | JStr s => HStr s
  | JArr items =>
      HArr items
        ((fix go (l : list json) : Forall P l :=
            match l with
            | [] => Forall_nil P
            | x :: r => Forall_cons x (json_nested_ind x) (go r)
            end) items)
  | JObj items =>
      HObj items
        ((fix go (l : list (str * json)) :
            Forall (fun kv => P (snd kv)) l :=
            match l with
            | [] => Forall_nil _
            | kv :: r =>
                Forall_cons kv
                  (match kv return P (snd kv) with
                   | (_, x) => json_nested_ind x
                   end) (go r)
            end) items)
  end.
End JsonInduction.

Lemma str_wf_forallb s : forallb scalarb s = true -> str_wf s.
Proof.
  intros H. apply Forall_forall. intros c Hc.
  exact (proj1 (forallb_forall scalarb s) H c Hc).
Qed.

(** The first character of a written value. *)
Definition value_head (s : str) : Prop :=
  match s with
  | c :: _ =>
      c = 34 \/ c = 123 \/ c = 91 \/ c = 110 \/ c = 116 \/ c = 102
      \/ c = 45 \/ 48 <= c <= 57
  | [] => False
  end.

Lemma dumps_head v rest : value_head (dumps v ++ rest).
Proof.
  destruct v as [|[|]|n|s|l|l]; try (cbn; lia).
  pose proof (int_repr_head n rest) as H. cbn [dumps].
  destruct (int_repr n ++ rest); cbn [value_head]; lia.
Qed.

Lemma value_head_skip_ws s : value_head s -> skip_ws s = s.
Proof.
  destruct s as [|c r]; [contradiction|]. cbn [value_head skip_ws].
  unfold is_ws. intros H.
  rewrite (proj2 (Z.eqb_neq c 32)), (proj2 (Z.eqb_neq c 9)),
    (proj2 (Z.eqb_neq c 10)), (proj2 (Z.eqb_neq c 13)) by lia.
  reflexivity.
Qed.

Lemma value_head_not_close s c r :
  value_head s -> s = c :: r -> (c =? 93) = false /\ (c =? 125) = false.
Proof.
  intros H ->. cbn [value_head] in H.
  split; apply Z.eqb_neq; lia.
Qed.

Lemma scan_once_S f c r :
  scan_once (S f) (c :: r) =
  if c =? 34 then
    match scanstring r with
    | Some (x, rest) => Some (JStr x, rest)
    | None => None
    end
  else if c =? 123 then
    match skip_ws r with
    | c1 :: r1 =>
        if c1 =? 125 then Some (JObj [], r1)
        else
          match object_items f (c1 :: r1) with
          | Some (l, rest) => Some (JObj l, rest)
          | None => None
          end
    | [] => None
    end
  else if c =? 91 then
    match skip_ws r with
    | c1 :: r1 =>
        if c1 =? 93 then Some (JArr [], r1)
        else
          match array_items f (c1 :: r1) with
          | Some (l, rest) => Some (JArr l, rest)
          | None => None
          end
    | [] => None
    end
  else if c =? 110 then
    match strip_prefix (lit "ull") r with
    | Some rest => Some (JNull, rest)
    | None => None
    end
  else if c =? 116 then
    match strip_prefix (lit "rue") r with
    | Some rest => Some (JBool true, rest)
    | None => None
    end
  else if c =? 102 then
    match strip_prefix (lit "alse") r with
    | Some rest => Some (JBool false, rest)
    | None => None
    end
  else scan_number (c :: r).
Proof. reflexivity. Qed.

Lemma array_items_S f s :
  array_items (S f) s =
  match scan_once f s with
  | None => None
  | Some (v, r) =>
      match skip_ws r with
      | c :: r1 =>
          if c =? 93 then Some ([v], r1)
          else if c =? 44 then
            match array_items f (skip_ws r1) with
            | Some (l, rest) => Some (v :: l, rest)
            | None => None
            end
          else None
      | [] => None
      end
  end.
Proof. reflexivity. Qed.

Lemma object_items_S f c r :
  object_items (S f) (c :: r) =
  if c =? 34 then
    match scanstring r with
    | None => None
    | Some (k, r1) =>
        match skip_ws r1 with
        | c2 :: r2 =>
            if c2 =? 58 then
              match scan_once f (skip_ws r2) with
              | None => None
              | Some (v, r3) =>
                  match skip_ws r3 with
                  | c4 :: r4 =>
                      if c4 =? 125 then Some ([(k, v)], r4)
                      else if c4 =? 44 then
                        match object_items f (skip_ws r4) with
                        | Some (l, rest) => Some ((k, v) :: l, rest)
                        | None => None
                        end
                      else None
                  | [] => None
                  end
              end
            else None
        | [] => None
        end
    end
  else None.
Proof. reflexivity. Qed.

(** [v] is read back from its text, given fuel for its values. *)
Definition reads_back (v : json) : Prop :=
  wf v ->
  forall fuel rest,
    (weight v <= fuel)%nat -> closes rest ->
    scan_once fuel (dumps v ++ rest) = Some (v, rest).

Definition item_text (kv : str * json) : str :=
  match kv with
  | (k, x) => encode_basestring_ascii k ++ key_separator ++ dumps x
  end.

Definition item_weight (kv : str * json) : nat :=
  match kv with (_, x) => S (weight x) end.

Definition item_wfb (kv : str * json) : bool :=
  match kv with (k, x) => forallb scalarb k && wfb x end.

Lemma array_items_join l :
  Forall reads_back l -> l <> [] -> forallb wfb l = true ->
  forall fuel rest,
    (list_sum (List.map (fun x => S (weight x)) l) <= fuel)%nat ->
    array_items fuel (join item_separator (List.map dumps l) ++ 93 :: rest)
    = Some (l, rest).
Proof.
  induction 1 as [|x l Hx Hl IH]; [congruence|]. intros _ Hwf fuel rest Hf.
  cbn [forallb] in Hwf. apply andb_prop in Hwf. destruct Hwf as [Hwx Hwl].
  cbn [List.map] in Hf. rewrite list_sum_cons in Hf.
  destruct fuel as [|f]; [lia|]. rewrite array_items_S.
  destruct l as [|y l'].
  - cbn [List.map join]. rewrite (Hx Hwx f (93 :: rest)); [reflexivity | |].
    + lia.
    + cbn. auto.
  - change (join item_separator (List.map dumps (x :: y :: l')))
      with (dumps x ++ item_separator
            ++ join item_separator (List.map dumps (y :: l'))).
    rewrite <- !app_assoc.
    rewrite (Hx Hwx f); [| lia | cbn; auto].
    change (skip_ws (item_separator ++ ?t)) with (44 :: 32 :: t).
    cbn [item_separator app].
    change (skip_ws (44 :: ?t)) with (44 :: t).
    change (44 =? 93) with false. change (44 =? 44) with true. cbv iota.
    change (skip_ws (32 :: ?t)) with (skip_ws t).
    rewrite value_head_skip_ws.
    + rewrite IH; [reflexivity | congruence | assumption | lia].
    + cbn [List.map]. destruct l'; [cbn [join] | cbn [join List.map];
        rewrite <- app_assoc]; apply dumps_head.
Qed.

Lemma item_text_head kv rest :
  value_head (item_text kv ++ rest).
Proof. destruct kv as [k x]. cbn. auto. Qed.

Lemma object_item_step f k x tail :
  str_wf k -> reads_back x -> wf x -> (weight x <= f)%nat -> closes tail ->
  object_items (S f) (item_text (k, x) ++ tail) =
  match tail with
  | c4 :: r4 =>
      if c4 =? 125 then Some ([(k, x)], r4)
      else if c4 =? 44 then
        match object_items f (skip_ws r4) with
        | Some (l, rest) => Some ((k, x) :: l, rest)
        | None => None
        end
      else None
  | [] => None
  end.
Proof.
  intros Hk Hx Hwx Hf Ht. cbn [item_text]. rewrite <- !app_assoc.
  destruct (scan_basestring k (key_separator ++ dumps x ++ tail) Hk)
    as (t & E & Hs).
  rewrite E, object_items_S. change (34 =? 34) with true. cbv iota.
  rewrite Hs. cbn [key_separator app].
  change (skip_ws (58 :: ?u)) with (58 :: u).
  change (58 =? 58) with true. cbv iota.
  change (skip_ws (32 :: ?u)) with (skip_ws u).
  rewrite value_head_skip_ws by apply dumps_head.
  rewrite (Hx Hwx f tail Hf Ht), closes_skip_ws by assumption.
  reflexivity.
Qed.

Lemma object_items_join l :
  Forall (fun kv => reads_back (snd kv)) l -> l <> [] ->
  forallb item_wfb l = true ->
  forall fuel rest,
    (list_sum (List.map item_weight l) <= fuel)%nat ->
    object_items fuel
      (join item_separator (List.map item_text l) ++ 125 :: rest)
    = Some (l, rest).
Proof.
  induction 1 as [|[k x] l Hx Hl IH]; [congruence|]. intros _ Hwf fuel rest Hf.
  cbn [forallb item_wfb] in Hwf. apply andb_prop in Hwf.
  destruct Hwf as [Hw Hwl]. apply andb_prop in Hw. destruct Hw as [Hwk Hwx].
  apply str_wf_forallb in Hwk. cbn [snd] in Hx.
  cbn [List.map] in Hf. rewrite list_sum_cons in Hf. cbn [item_weight] in Hf.
  destruct fuel as [|f]; [lia|].
  destruct l as [|kv l'].
  - cbn [List.map join].
    rewrite (object_item_step f k x (125 :: rest) Hwk Hx Hwx)
      by first [lia | cbn; auto].
    reflexivity.
  - change (join item_separator (List.map item_text ((k, x) :: kv :: l')))
      with (item_text (k, x) ++ item_separator
            ++ join item_separator (List.map item_text (kv :: l'))).
    rewrite <- !app_assoc.
    rewrite (object_item_step f k x _ Hwk Hx Hwx)
      by first [lia | cbn; auto].
    cbn [item_separator app].
    change (44 =? 125) with false. change (44 =? 44) with true. cbv iota.
    change (skip_ws (32 :: ?t)) with (skip_ws t).
    rewrite value_head_skip_ws.
    + rewrite IH; [reflexivity | congruence | assumption | lia].
    + cbn [List.map]. destruct l'; [cbn [join] | cbn [join List.map];
        rewrite <- app_assoc]; apply item_text_head.
Qed.

(** Every well-formed document is read back from its text. *)
Lemma scan_once_dumps v : reads_back v.
Proof.
  induction v as [| b | n | s | l IH | l IH] using json_nested_ind;
    intros Hwf fuel rest Hf Hr; (destruct fuel as [|f]; [cbn in Hf; lia|]).
  - reflexivity.
  - destruct b; reflexivity.
  - pose proof (int_repr_head n rest) as Hh. cbn [dumps].
    pose proof (scan_number_int_repr n rest Hr) as Hs.
    destruct (int_repr n ++ rest) as [|c r]; [contradiction|].
    rewrite scan_once_S.
    rewrite (proj2 (Z.eqb_neq c 34)), (proj2 (Z.eqb_neq c 123)),
      (proj2 (Z.eqb_neq c 91)), (proj2 (Z.eqb_neq c 110)),
      (proj2 (Z.eqb_neq c 116)), (proj2 (Z.eqb_neq c 102)) by lia.
    exact Hs.
  - cbn [dumps]. unfold wf in Hwf. cbn [wfb] in Hwf.
    apply str_wf_forallb in Hwf.
    destruct (scan_basestring s rest Hwf) as (t & E & Hs).
    rewrite E, scan_once_S. change (34 =? 34) with true. cbv iota.
    rewrite Hs. reflexivity.
  - unfold wf in Hwf. cbn [wfb] in Hwf. cbn [weight] in Hf.
    cbn [dumps app]. rewrite <- app_assoc. cbn [app].
    rewrite scan_once_S. change (91 =? 34) with false.
    change (91 =? 123) with false. change (91 =? 91) with true. cbv iota.
    destruct l as [|x l'].
    + reflexivity.
    + assert (Hne : x :: l' <> []) by congruence.
      apply le_S_n in Hf.
      pose proof (array_items_join (x :: l') IH Hne Hwf f rest Hf) as Hitems.
      assert (Hh : value_head
                (join item_separator (List.map dumps (x :: l')) ++ 93 :: rest)).
      { cbn [List.map]. destruct l'; [cbn [join] | cbn [join List.map];
          rewrite <- app_assoc]; apply dumps_head. }
      rewrite (value_head_skip_ws _ Hh).
      destruct (join item_separator (List.map dumps (x :: l')) ++ 93 :: rest)
        as [|c1 r1] eqn:E; [contradiction|].
      destruct (value_head_not_close _ c1 r1 Hh eq_refl) as [-> _].
      rewrite Hitems. reflexivity.
  - unfold wf in Hwf. cbn [wfb] in Hwf. cbn [weight] in Hf.
    cbn [dumps app]. rewrite <- app_assoc. cbn [app].
    rewrite scan_once_S. change (123 =? 34) with false.
    change (123 =? 123) with true. cbv iota.
    destruct l as [|kv l'].
    + reflexivity.
    + assert (Hne : kv :: l' <> []) by congruence.
      apply le_S_n in Hf.
      pose proof (object_items_join (kv :: l') IH Hne Hwf f rest Hf) as Hitems.
      assert (Hh : value_head
                (join item_separator (List.map item_text (kv :: l'))
                 ++ 125 :: rest)).
      { cbn [List.map]. destruct l'; [cbn [join] | cbn [join List.map];
          rewrite <- app_assoc]; apply item_text_head. }
      change (List.map _ (kv :: l')) with (List.map item_text (kv :: l')).
      rewrite (value_head_skip_ws _ Hh).
      destruct (join item_separator (List.map item_text (kv :: l'))
                ++ 125 :: rest) as [|c1 r1] eqn:E; [contradiction|].
      destruct (value_head_not_close _ c1 r1 Hh eq_refl) as [_ ->].
      rewrite Hitems. reflexivity.
Qed.

Lemma join_cons2 sep p q r :
  join sep (p :: q :: r) = p ++ sep ++ join sep (q :: r).
Proof. reflexivity. Qed.

Lemma length_join_items (A : Type) (text : A -> str) (weight : A -> nat)
      (l : list A) :
  Forall (fun a => (weight a <= List.length (text a))%nat) l ->
  (list_sum (List.map (fun a => S (weight a)) l)
   <= S (List.length (join item_separator (List.map text l))))%nat.
Proof.
  induction 1 as [|a l Ha Hl IH]; [cbn; lia|].
  cbn [List.map]. rewrite list_sum_cons.
  destruct l as [|b l'].
  - cbn [List.map join list_sum]. cbn. lia.
  - cbn [List.map] in *. rewrite join_cons2, !length_app.
    cbn [item_separator List.length]. lia.
Qed.

Lemma weight_le_length v : (weight v <= List.length (dumps v))%nat.
Proof.
  induction v as [| b | n | s | l IH | l IH] using json_nested_ind.
  - cbn. lia.
  - destruct b; cbn; lia.
  - pose proof (int_repr_head n []) as H. rewrite List.app_nil_r in H.
    cbn [dumps weight]. destruct (int_repr n); [contradiction | cbn; lia].
  - cbn. lia.
  - cbn [dumps weight List.length]. rewrite length_app. cbn [List.length].
    pose proof (length_join_items json dumps weight l IH). lia.
  - cbn [dumps weight List.length]. rewrite length_app. cbn [List.length].
    assert (H : Forall (fun kv => (weight (snd kv)
                                   <= List.length (item_text kv))%nat) l).
    { eapply Forall_impl; [|exact IH]. intros [k x] Hx. cbn [snd] in *.
      cbn [item_text]. rewrite !length_app. lia. }
    pose proof (length_join_items _ item_text (fun kv => weight (snd kv)) l H)
      as Hlen.
    change (List.map _ l) with (List.map item_text l) at 2.
    replace (List.map (fun kv : str * json => let (_, x) := kv in S (weight x)) l)
      with (List.map (fun a : str * json => S (weight (snd a))) l).
    + lia.
    + apply map_ext. intros [k x]. reflexivity.
Qed.

(** [json.loads] inverts [json.dumps] on every well-formed document. *)
Lemma loads_dumps v : wf v -> loads (dumps v) = Some v.
Proof.
  intros Hwf. unfold loads.
  pose proof (dumps_head v []) as Hh. rewrite List.app_nil_r in Hh.
  rewrite (value_head_skip_ws _ Hh).
  pose proof (scan_once_dumps v Hwf (S (List.length (dumps v))) []) as Hs.
  rewrite List.app_nil_r in Hs. rewrite Hs; [reflexivity | | exact I].
  pose proof (weight_le_length v). lia.
Qed.

(** With [ensure_ascii], the text is plain ASCII. *)
Lemma hex4_ascii n : Forall is_ascii (hex4 n).
Proof.
  unfold hex4. repeat constructor; apply hex_digit_ascii; div_mod_lia.
Qed.

Lemma escape_cp_ascii c : Forall is_ascii (escape_cp c).
Proof.
  assert (H92 : is_ascii 92) by (red; lia).
  assert (H117 : is_ascii 117) by (red; lia).
  unfold escape_cp.
  do 7 (match goal with
        | |- Forall _ (if ?b then _ else _) =>
            destruct b; [repeat (constructor; [red; lia|]); constructor|]
        end).
  destruct (Z.leb_spec 32 c); destruct (Z.leb_spec c 126); cbn [andb];
    try (repeat (constructor; [red; lia|]); constructor);
    destruct (c <? 65536); cbv zeta;
    repeat first [ apply Forall_app_intro | apply hex4_ascii
                 | (constructor; [assumption|]) ].
Qed.

Ltac ascii_consts :=
  repeat (apply Forall_cons; [red; cbn; lia|]); try apply Forall_nil.

Lemma basestring_ascii s : Forall is_ascii (encode_basestring_ascii s).
Proof.
  unfold encode_basestring_ascii. constructor; [red; lia|].
  apply Forall_app_intro; [|ascii_consts].
  induction s as [|c s IH]; cbn [flat_map]; [constructor|].
  apply Forall_app_intro; [apply escape_cp_ascii | exact IH].
Qed.

Lemma uint_chars_ascii d : Forall is_ascii (uint_chars d).
Proof.
  induction d; cbn [uint_chars]; constructor; trivial; red; lia.
Qed.

Lemma int_repr_ascii n : Forall is_ascii (int_repr n).
Proof.
  unfold int_repr. destruct (Z.to_int n);
    [|constructor; [red; lia|]]; apply uint_chars_ascii.
Qed.

Lemma join_ascii parts :
  Forall (Forall is_ascii) parts ->
  Forall is_ascii (join item_separator parts).
Proof.
  induction 1 as [|p ps Hp Hps IH]; [constructor|].
  destruct ps as [|q ps']; [exact Hp|].
  rewrite join_cons2.
  apply Forall_app_intro; [exact Hp|].
  apply Forall_app_intro; [ascii_consts | exact IH].
Qed.

Lemma dumps_ascii v : Forall is_ascii (dumps v).
Proof.
  induction v as [| b | n | s | l IH | l IH] using json_nested_ind.
  - cbn. ascii_consts.
  - destruct b; cbn; ascii_consts.
  - apply int_repr_ascii.
  - apply basestring_ascii.
  - cbn [dumps]. constructor; [red; lia|].
    apply Forall_app_intro; [|ascii_consts].
    apply join_ascii. apply Forall_map. exact IH.
  - cbn [dumps]. constructor; [red; lia|].
    apply Forall_app_intro; [|ascii_consts].
    apply join_ascii. apply Forall_map.
    eapply Forall_impl; [|exact IH]. intros [k x] Hx. cbn [snd] in Hx.
    apply Forall_app_intro; [apply basestring_ascii|].
    apply Forall_app_intro; [ascii_consts | exact Hx].
Qed.

End Json.

(** ** The ingest client *)

Module Client.
Import Json.

(** *** Data model *)

(** A storage container or an ingestion queue handed out by the resource
    manager: [storage_account_name], [object_name] and [sas]. *)
Record Resource : Type := {
  storage_account_name : str;
  object_name : str;
  sas : str
}.

(** [BlobDescriptor(url, size)]; the names of its two fields are those of
    the specification, its module [_descriptors.py] not being among the
    sources. *)
Record BlobDescriptor : Type := {
  url : str;
  size : Z
}.

(** Modelled from the spec: [FileDescriptor] of [_descriptors.py], which is
    not among the sources. It wraps a source of bytes with its derived
    [size] and [stream_name], the compressed stream that is uploaded, and
    the temporary artifacts it created and has to delete. *)
Record FileDescriptor : Type := {
  fd_path : str;
  fd_size : Z;
  stream_name : str;
  zipped_stream : bytes;
  fd_artifacts : list str
}.

(** Modelled from the spec: [IngestionProperties], whose module is not
    among the sources: the target [database] and [table], and the
    pass-through options of the queue message. *)
Record IngestionProperties : Type := {
  database : str;
  table : str;
  retain_blob_on_success : bool;
  flush_immediately : bool;
  ignore_size_limit : bool;
  additional_properties : list (str * json)
}.

(** Exceptions. What a collaborator raises is passed on unchanged, so it is
    opaque here. *)
Inductive exn : Type :=
| IndexError
| ResourceUnavailable
| UnicodeError
| FileNotFoundError
| Raised (what : str).

Inductive result (A : Type) : Type :=
| Ok (a : A)
| Err (e : exn).
Arguments Ok {A} a.
Arguments Err {A} e.

(** An element of [files]: a path or a [FileDescriptor]. *)
Inductive file_arg : Type :=
| Path (p : str)
| Descriptor (d : FileDescriptor).

(** The dataframe, as far as this client uses it: what [df.to_csv] does,
    write the compressed rows or raise. *)
Record DataFrame : Type := {
  to_csv : result bytes
}.

(** One answer of the resource authority. *)
Record ResourceSet : Type := {
  containers : list Resource;
  queues : list Resource;
  authorization_context : str
}.

Inductive kind : Type := Containers | Queues | Auth.

Inductive value : Type :=
| Resources (l : list Resource)
| Token (t : str).

(** *** The world the client runs in *)

(** What the client did, in order: the calls to the resource manager
    ([Call]), its fetches from the authority ([Fetch]) and its answers
    ([Got]); the blobs written ([Upload]) and the messages put on a queue
    ([PutMessage]); the local files written and deleted. *)
Inductive event : Type :=
| Call (k : kind)
| Fetch (k : kind)
| Got (k : kind) (v : value)
| Upload (c : Resource) (blob_name : str) (data : bytes)
| PutMessage (q : Resource) (content : str)
| WriteFile (p : str)
| DeleteFile (p : str).

(** The behaviour of everything outside the client:
    - [ttl], the time to live of a cached resource, in seconds;
    - [clock n], the time at the [n]-th reading of the clock;
    - [authority n], the answer of the resource authority to the [n]-th
      fetch, [None] when it cannot be reached;
    - [randbelow n k], the [n]-th draw of the random generator, asked for a
      number below [k];
    - [uuid_source n], the [n]-th UUID generated;
    - [upload_outcome n] and [put_outcome n], what the blob service raises
      on the [n]-th upload and the queue service on the [n]-th message,
      [None] when they succeed;
    - [open_file p], what [FileDescriptor(p)] makes of the path [p];
    - [pid] and [tmpdir], the process identifier and the temporary
      directory. *)
Record Env : Type := {
  ttl : Z;
  clock : nat -> Z;
  authority : nat -> option ResourceSet;
  randbelow : nat -> nat -> nat;
  uuid_source : nat -> str;
  upload_outcome : nat -> option exn;
  put_outcome : nat -> option exn;
  open_file : str -> result FileDescriptor;
  pid : Z;
  tmpdir : str
}.

(** What the resource manager remembers: per kind, the value last fetched
    and when. *)
Record Cache : Type := {
  cached_containers : option (list Resource * Z);
  cached_queues : option (list Resource * Z);
  cached_auth : option (str * Z)
}.

(** The world as the client changes it: the cache of the resource manager,
    how many times the clock was read, the authority asked, a random
    number drawn, a UUID generated, an upload and a message tried; the
    local files; and the log. *)
Record State : Type := {
  cache : Cache;
  ticks : nat;
  fetches : nat;
  draws : nat;
  uuids : nat;
  uploads : nat;
  puts : nat;
  files : list (str * bytes);
  log : list event
}.

Definition set_cache (f : Cache) (s : State) : State :=
  {| cache := f; ticks := ticks s; fetches := fetches s; draws := draws s;
     uuids := uuids s; uploads := uploads s; puts := puts s;
     files := files s; log := log s |}.

Definition set_ticks (n : nat) (s : State) : State :=
  {| cache := cache s; ticks := n; fetches := fetches s; draws := draws s;
     uuids := uuids s; uploads := uploads s; puts := puts s;
     files := files s; log := log s |}.

Definition set_fetches (n : nat) (s : State) : State :=
  {| cache := cache s; ticks := ticks s; fetches := n; draws := draws s;
     uuids := uuids s; uploads := uploads s; puts := puts s;
     files := files s; log := log s |}.

Definition set_draws (n : nat) (s : State) : State :=
  {| cache := cache s; ticks := ticks s; fetches := fetches s; draws := n;
     uuids := uuids s; uploads := uploads s; puts := puts s;
     files := files s; log := log s |}.

Definition set_uuids (n : nat) (s : State) : State :=
  {| cache := cache s; ticks := ticks s; fetches := fetches s;
     draws := draws s; uuids := n; uploads := uploads s; puts := puts s;
     files := files s; log := log s |}.

Definition set_uploads (n : nat) (s : State) : State :=
  {| cache := cache s; ticks := ticks s; fetches := fetches s;
     draws := draws s; uuids := uuids s; uploads := n; puts := puts s;
     files := files s; log := log s |}.

Definition set_puts (n : nat) (s : State) : State :=
  {| cache := cache s; ticks := ticks s; fetches := fetches s;
     draws := draws s; uuids := uuids s; uploads := uploads s; puts := n;
     files := files s; log := log s |}.

Definition set_files (l : list (str * bytes)) (s : State) : State :=
  {| cache := cache s; ticks := ticks s; fetches := fetches s;
     draws := draws s; uuids := uuids s; uploads := uploads s;
     puts := puts s; files := l; log := log s |}.

Definition record (e : event) (s : State) : State :=
  {| cache := cache s; ticks := ticks s; fetches := fetches s;
     draws := draws s; uuids := uuids s; uploads := uploads s;
     puts := puts s; files := files s; log := log s ++ [e] |}.

(** The messages on the queues and the blobs in storage are those the log
    says were put there. *)
Definition puts_of (l : list event) : list (Resource * str) :=
  flat_map (fun e => match e with
                     | PutMessage q content => [(q, content)]
                     | _ => []
                     end) l.

Definition uploads_of (l : list event) : list (Resource * str * bytes) :=
  flat_map (fun e => match e with
                     | Upload c blob_name data => [(c, blob_name, data)]
                     | _ => []
                     end) l.

Definition messages (s : State) : list (Resource * str) := puts_of (log s).

Definition storage (s : State) : list (Resource * str * bytes) :=
  uploads_of (log s).

(** A fresh client: nothing cached, nothing done. *)
Definition initial : State :=
  {| cache := {| cached_containers := None; cached_queues := None;
                 cached_auth := None |};
     ticks := 0; fetches := 0; draws := 0;
     uuids := 0; uploads := 0; puts := 0; files := []; log := [] |}.

(** Computations that change the world and may raise; what was done before
    an exception stays done. *)
Definition M (A : Type) : Type := State -> result A * State.

Definition ret {A} (a : A) : M A := fun s => (Ok a, s).

Definition raise {A} (e : exn) : M A := fun s => (Err e, s).

Definition bind {A B} (m : M A) (f : A -> M B) : M B :=
  fun s =>
    match m s with
    | (Ok a, s') => f a s'
    | (Err e, s') => (Err e, s')
    end.

Definition lift {A} (r : result A) : M A := fun s => (r, s).

Definition update (f : State -> State) : M unit := fun s => (Ok tt, f s).

Definition gets {A} (f : State -> A) : M A := fun s => (Ok (f s), s).

Declare Scope client_scope.
Delimit Scope client_scope with client.
Notation "x <- m ;; k" := (bind m (fun x => k))
  (at level 61, m at next level, right associativity) : client_scope.
Notation "m ;; k" := (bind m (fun _ => k))
  (at level 61, right associativity) : client_scope.
Local Open Scope client_scope.

(** [for x in l: body(x)], collecting what the bodies append. *)
Fixpoint for_each {A B} (body : A -> M B) (l : list A) : M (list B) :=
  match l with
  | [] => ret []
  | x :: rest =>
      b <- body x ;;
      bs <- for_each body rest ;;
      ret (b :: bs)
  end.

Section WithEnv.
Variable env : Env.

(** [time.time()], in whole seconds. *)
Definition now : M Z :=
  fun s => (Ok (clock env (ticks s)), set_ticks (S (ticks s)) s).

(** [uuid.uuid4()], as its string. *)
Definition uuid4 : M str :=
  fun s => (Ok (uuid_source env (uuids s)), set_uuids (S (uuids s)) s).

(** [random.choice(seq)] is [seq[randbelow(len(seq))]], and [IndexError]
    for an empty sequence; [chosen seq n] is what it returns when it
    takes the [n]-th draw of the generator. *)
Definition chosen {A} (seq : list A) (n : nat) : option A :=
  nth_error seq (randbelow env n (List.length seq)).

Definition choice {A} (seq : list A) : M A :=
  fun s =>
    match seq with
    | [] => (Err IndexError, s)
    | _ :: _ =>
        match chosen seq (draws s) with
        | Some a => (Ok a, set_draws (S (draws s)) s)
        | None => (Err IndexError, s)
        end
    end.

(** **** The resource manager

    Modelled from the spec: [_ResourceManager] of [_resource_manager.py],
    which is not among the sources. Each kind of resource has its own
    cached value and age; a call finds the value absent or older than
    the time to live, fetches from the authority, replaces the value and
    resets its age, and otherwise answers from the cache. A failed fetch
    is [ResourceUnavailable] and leaves the cache as it was. *)

Definition fetch (k : kind) : M ResourceSet :=
  fun s =>
    let s1 := record (Fetch k) (set_fetches (S (fetches s)) s) in
    match authority env (fetches s) with
    | Some rs => (Ok rs, s1)
    | None => (Err ResourceUnavailable, s1)
    end.

Definition expired {A} (t : Z) (slot : option (A * Z)) : bool :=
  match slot with
  | None => true
  | Some (_, fetched_at) => ttl env <? t - fetched_at
  end.

Definition cached {A} (k : kind)
           (read : Cache -> option (A * Z))
           (write : option (A * Z) -> Cache -> Cache)
           (pick : ResourceSet -> A) (show : A -> value) : M A :=
  update (record (Call k)) ;;
  t <- now ;;
  slot <- gets (fun s => read (cache s)) ;;
  a <- match slot with
       | Some (a, fetched_at) =>
           if ttl env <? t - fetched_at then
             rs <- fetch k ;;
             update (fun s =>
                       set_cache (write (Some (pick rs, t)) (cache s)) s) ;;
             ret (pick rs)
           else ret a
       | None =>
           rs <- fetch k ;;
           update (fun s =>
                     set_cache (write (Some (pick rs, t)) (cache s)) s) ;;
           ret (pick rs)
       end ;;
  update (record (Got k (show a))) ;;
  ret a.

Definition get_containers : M (list Resource) :=
  cached Containers cached_containers
    (fun v c => {| cached_containers := v;
                   cached_queues := cached_queues c;
                   cached_auth := cached_auth c |})
    containers Resources.

Definition get_ingestion_queues : M (list Resource) :=
  cached Queues cached_queues
    (fun v c => {| cached_containers := cached_containers c;
                   cached_queues := v;
                   cached_auth := cached_auth c |})
    queues Resources.

Definition get_authorization_context : M str :=
  cached Auth cached_auth
    (fun v c => {| cached_containers := cached_containers c;
                   cached_queues := cached_queues c;
                   cached_auth := v |})
    authorization_context Token.

(** **** The storage services *)

(** [blob_service.create_blob_from_stream] *)
Definition create_blob_from_stream (c : Resource) (blob_name : str)
           (stream : bytes) : M unit :=
  fun s =>
    let s1 := set_uploads (S (uploads s)) s in
    match upload_outcome env (uploads s) with
    | Some e => (Err e, s1)
    | None => (Ok tt, record (Upload c blob_name stream) s1)
    end.

Fixpoint read_file (p : str) (fs : list (str * bytes)) : option bytes :=
  match fs with
  | [] => None
  | (q, data) :: rest => if str_eqb p q then Some data else read_file p rest
  end.

Definition remove_file (p : str) (fs : list (str * bytes))
  : list (str * bytes) :=
  List.filter (fun f => negb (str_eqb p (fst f))) fs.

(** [blob_service.create_blob_from_path]; the progress callback only
    prints. *)
Definition create_blob_from_path (c : Resource) (blob_name : str)
           (file_path : str) : M unit :=
  data <- (fun s => match read_file file_path (files s) with
                    | Some data => (Ok data, s)
                    | None => (Err FileNotFoundError, s)
                    end) ;;
  create_blob_from_stream c blob_name data.

(** [blob_service.make_blob_url] *)
Definition make_blob_url (c : Resource) (blob_name : str) : str :=
  lit "https://" ++ storage_account_name c
  ++ lit ".blob.core.windows.net/" ++ object_name c ++ lit "/"
  ++ blob_name ++ lit "?" ++ sas c.

(** [queue_service.put_message] *)
Definition put_message (q : Resource) (content : str) : M unit :=
  fun s =>
    let s1 := set_puts (S (puts s)) s in
    match put_outcome env (puts s) with
    | Some e => (Err e, s1)
    | None => (Ok tt, record (PutMessage q content) s1)
    end.

(** **** The local file system *)

(** [df.to_csv(temp_file_path, ..., compression='gzip')] *)
Definition write_csv (df : DataFrame) (p : str) : M unit :=
  data <- lift (to_csv df) ;;
  update (fun s =>
            record (WriteFile p)
              (set_files ((p, data) :: remove_file p (files s)) s)).

(** [os.unlink] *)
Definition unlink (p : str) : M unit :=
  fun s =>
    match read_file p (files s) with
    | Some _ =>
        (Ok tt, record (DeleteFile p) (set_files (remove_file p (files s)) s))
    | None => (Err FileNotFoundError, s)
    end.

(** [FileDescriptor(path)]: the descriptor, with its artifacts on disk. *)
Definition new_file_descriptor (p : str) : M FileDescriptor :=
  d <- lift (open_file env p) ;;
  update (fun s =>
            set_files (List.map (fun a => (a, [])) (fd_artifacts d)
                       ++ files s) s) ;;
  ret d.

(** [fd.delete_files()] *)
Definition delete_files (d : FileDescriptor) : M unit :=
  update (fun s =>
            set_files (fold_right remove_file (files s) (fd_artifacts d)) s).

(** **** The queue message *)

(** Modelled from the spec: [_IngestionBlobInfo] of
    [_ingestion_blob_info.py], which is not among the sources. The
    document has the ten fields of the queue message payload; [Id] is a
    UUID made for this message. *)
Definition IngestionBlobInfo (blob : BlobDescriptor)
           (ingestion_properties : IngestionProperties)
           (auth_context : str) (id : str) : json :=
  JObj [(lit "BlobPath", JStr (url blob));
        (lit "RawDataSize", JInt (size blob));
        (lit "DatabaseName", JStr (database ingestion_properties));
        (lit "TableName", JStr (table ingestion_properties));
        (lit "RetainBlobOnSuccess",
         JBool (retain_blob_on_success ingestion_properties));
        (lit "FlushImmediately",
         JBool (flush_immediately ingestion_properties));
        (lit "IgnoreSizeLimit",
         JBool (ignore_size_limit ingestion_properties));
        (lit "AdditionalProperties",
         JObj (additional_properties ingestion_properties));
        (lit "AuthorizationContext", JStr auth_context);
        (lit "Id", JStr id)].

Definition new_ingestion_blob_info (blob : BlobDescriptor)
           (ingestion_properties : IngestionProperties)
           (auth_context : str) : M json :=
  id <- uuid4 ;;
  ret (IngestionBlobInfo blob ingestion_properties auth_context id).

Definition to_json (info : json) : str := dumps info.

End WithEnv.

(** [base64.b64encode(text.encode("utf-8")).decode("utf-8")] *)
Definition b64_text (text : str) : result str :=
  match Utf8.encode text with
  | None => Err UnicodeError
  | Some octets =>
      match Utf8.decode (Base64.b64encode octets) with
      | Some encoded => Ok encoded
      | None => Err UnicodeError
      end
  end.

(** ["{db}__{table}__{guid}__{file}".format(...)] *)
Definition blob_name_format (db tbl guid file : str) : str :=
  db ++ lit "__" ++ tbl ++ lit "__" ++ guid ++ lit "__" ++ file.

Section Orchestrator.
Variable env : Env.

(** The body of the loop of [ingest_from_blobs]. *)
Definition publish (ingestion_properties : IngestionProperties)
           (queues : list Resource) (blob : BlobDescriptor) : M unit :=
  queue_details <- choice env queues ;;
  authorization_context <- get_authorization_context env ;;
  ingestion_blob_info <-
    new_ingestion_blob_info env blob ingestion_properties
      authorization_context ;;
  let ingestion_blob_info_json := to_json ingestion_blob_info in
  encoded <- lift (b64_text ingestion_blob_info_json) ;;
  put_message env queue_details encoded.

Definition ingest_from_blobs (blobs : list BlobDescriptor)
           (ingestion_properties : IngestionProperties) : M unit :=
  queues <- get_ingestion_queues env ;;
  for_each (publish ingestion_properties queues) blobs ;;
  ret tt.

(** The body of the loop of [ingest_from_files]; the list
    [file_descriptors], which is only appended to, is left out. *)
Definition stage (ingestion_properties : IngestionProperties)
           (containers : list Resource) (file : file_arg)
  : M BlobDescriptor :=
  descriptor <- match file with
                | Descriptor d => ret d
                | Path p => new_file_descriptor env p
                end ;;
  guid <- uuid4 env ;;
  let blob_name :=
    blob_name_format (database ingestion_properties)
      (table ingestion_properties) guid (stream_name descriptor) in
  container_details <- choice env containers ;;
  create_blob_from_stream env container_details blob_name
    (zipped_stream descriptor) ;;
  let blob_url := make_blob_url container_details blob_name in
  ret {| url := blob_url; size := fd_size descriptor |}.

Definition ingest_from_files (files : list file_arg)
           (ingestion_properties : IngestionProperties) : M unit :=
  containers <- get_containers env ;;
  blobs <- for_each (stage ingestion_properties containers) files ;;
  ingest_from_blobs blobs ingestion_properties.

(** ['df_{timestamp}_{pid}.csv.gz'.format(...)] *)
Definition df_file_name (timestamp : Z) : str :=
  lit "df_" ++ int_repr timestamp ++ lit "_" ++ int_repr (pid env)
  ++ lit ".csv.gz".

(** [os.path.join(tempfile.gettempdir(), file_name)] *)
Definition temp_path (file_name : str) : str :=
  tmpdir env ++ lit "/" ++ file_name.

Definition ingest_from_dataframe (df : DataFrame)
           (ingestion_properties : IngestionProperties) : M unit :=
  timestamp <- now env ;;
  let file_name := df_file_name timestamp in
  let temp_file_path := temp_path file_name in
  write_csv df temp_file_path ;;
  fd <- new_file_descriptor env temp_file_path ;;
  guid <- uuid4 env ;;
  let blob_name :=
    blob_name_format (database ingestion_properties)
      (table ingestion_properties) guid file_name in
  containers <- get_containers env ;;
  container_details <- choice env containers ;;
  create_blob_from_path env container_details blob_name temp_file_path ;;
  let blob_url := make_blob_url container_details blob_name in
  ingest_from_blobs [{| url := blob_url; size := fd_size fd |}]
    ingestion_properties ;;
  delete_files fd ;;
  unlink temp_file_path.

End Orchestrator.

(** *** What one operation does to the world *)

Definition result_map {A B} (f : A -> B) (r : result A) : result B :=
  match r with
  | Ok a => Ok (f a)
  | Err e => Err e
  end.

Definition is_ok {A} (r : result A) : bool :=
  match r with
  | Ok _ => true
  | Err _ => false
  end.

(** The log of one call to the resource manager: answered from the cache,
    answered after a fetch, or failed in the fetch. *)
Inductive accessor_seg (k : kind) : result value -> list event -> Prop :=
| seg_hit v : accessor_seg k (Ok v) [Call k; Got k v]
| seg_miss v : accessor_seg k (Ok v) [Call k; Fetch k; Got k v]
| seg_fail : accessor_seg k (Err ResourceUnavailable) [Call k; Fetch k].

(** What the resource manager leaves alone. *)
Definition same_oracles (s s' : State) : Prop :=
  draws s' = draws s /\ uuids s' = uuids s /\ uploads s' = uploads s
  /\ puts s' = puts s /\ files s' = files s.

Lemma puts_of_app l1 l2 : puts_of (l1 ++ l2) = puts_of l1 ++ puts_of l2.
Proof. apply flat_map_app. Qed.

Lemma uploads_of_app l1 l2 :
  uploads_of (l1 ++ l2) = uploads_of l1 ++ uploads_of l2.
Proof. apply flat_map_app. Qed.

Lemma accessor_seg_quiet k r seg :
  accessor_seg k r seg -> puts_of seg = [] /\ uploads_of seg = [].
Proof. destruct 1; split; reflexivity. Qed.

Section Facts.
Variable env : Env.

Lemma cached_run {A} (k : kind) read write (pick : ResourceSet -> A) show s :
  exists seg,
    log (snd (cached env k read write pick show s)) = log s ++ seg
    /\ accessor_seg k
         (result_map show (fst (cached env k read write pick show s))) seg
    /\ same_oracles s (snd (cached env k read write pick show s))
    /\ ticks (snd (cached env k read write pick show s)) = S (ticks s).
Proof.
  unfold cached, bind, update, gets, now, ret, fetch, same_oracles. cbn.
  destruct (read (cache s)) as [[a t0]|]; cbn;
    [destruct (ttl env <? clock env (ticks s) - t0); cbn|];
    try destruct (authority env (fetches s)); cbn;
    eexists; rewrite <- ?app_assoc; cbn [app];
    (split; [reflexivity|]); (split; [constructor|]);
    repeat split; reflexivity.
Qed.

(** The three cases of a call, with the state it leaves. *)
Lemma cached_hit {A} (k : kind) read write (pick : ResourceSet -> A) show
      s a t0 :
  read (cache s) = Some (a, t0) ->
  (ttl env <? clock env (ticks s) - t0) = false ->
  cached env k read write pick show s
  = (Ok a, record (Got k (show a))
             (set_ticks (S (ticks s)) (record (Call k) s))).
Proof.
  intros Hr Ht. unfold cached, bind, update, gets, now, ret. cbn.
  rewrite Hr, Ht. reflexivity.
Qed.

Lemma cached_miss {A} (k : kind) read write (pick : ResourceSet -> A) show
      s rs :
  expired env (clock env (ticks s)) (read (cache s)) = true ->
  authority env (fetches s) = Some rs ->
  cached env k read write pick show s
  = (Ok (pick rs),
     record (Got k (show (pick rs)))
       (set_cache (write (Some (pick rs, clock env (ticks s))) (cache s))
          (record (Fetch k)
             (set_fetches (S (fetches s))
                (set_ticks (S (ticks s)) (record (Call k) s)))))).
Proof.
  intros He Ha. unfold cached, bind, update, gets, now, ret, fetch. cbn.
  unfold expired in He. destruct (read (cache s)) as [[a t0]|];
    rewrite ?He; cbn; rewrite Ha; reflexivity.
Qed.

Lemma cached_fail {A} (k : kind) read write (pick : ResourceSet -> A) show
      s :
  expired env (clock env (ticks s)) (read (cache s)) = true ->
  authority env (fetches s) = None ->
  cached env k read write pick show s
  = (Err ResourceUnavailable,
     record (Fetch k)
       (set_fetches (S (fetches s))
          (set_ticks (S (ticks s)) (record (Call k) s)))).
Proof.
  intros He Ha. unfold cached, bind, update, gets, now, ret, fetch. cbn.
  unfold expired in He. destruct (read (cache s)) as [[a t0]|];
    rewrite ?He; cbn; rewrite Ha; reflexivity.
Qed.

End Facts.

(** The message text is ASCII, so both codecs pass it through. *)
Lemma b64_text_ascii text :
  Forall is_ascii text -> b64_text text = Ok (Base64.b64encode text).
Proof.
  intros Ha. unfold b64_text. rewrite (Utf8.encode_ascii text Ha).
  rewrite Utf8.decode_ascii; [reflexivity|].
  apply Base64.b64encode_ascii.
  eapply Forall_impl; [|exact Ha]. unfold is_ascii, is_byte. intros; lia.
Qed.

Lemma b64_text_to_json doc :
  b64_text (to_json doc) = Ok (Base64.b64encode (to_json doc)).
Proof. apply b64_text_ascii, dumps_ascii. Qed.


Ltac simpl_state :=
  cbn [fst snd log files draws uuids uploads puts ticks fetches cache
       record set_files set_ticks set_uuids set_draws set_uploads set_puts
       set_fetches set_cache].

Tactic Notation "simpl_state" "in" hyp(H) :=
  cbn [fst snd log files draws uuids uploads puts ticks fetches cache
       record set_files set_ticks set_uuids set_draws set_uploads set_puts
       set_fetches set_cache] in H.

Section Loops.
Variable env : Env.
Variable ingestion_properties : IngestionProperties.

(** The content of the message for [blob], made with the authorization
    context [ctx] and the [u]-th UUID. *)
Definition message_of (blob : BlobDescriptor) (ctx : str) (u : nat) : str :=
  Base64.b64encode
    (to_json
       (IngestionBlobInfo blob ingestion_properties ctx
          (uuid_source env u))).

Lemma publish_run queues blob s :
  exists seg,
    log (snd (publish env ingestion_properties queues blob s))
    = log s ++ seg
    /\ uploads (snd (publish env ingestion_properties queues blob s))
       = uploads s
    /\ files (snd (publish env ingestion_properties queues blob s))
       = files s
    /\ match fst (publish env ingestion_properties queues blob s) with
       | Ok _ =>
           exists q ctx aseg,
             chosen env queues (draws s) = Some q
             /\ accessor_seg Auth (Ok (Token ctx)) aseg
             /\ seg = aseg ++ [PutMessage q (message_of blob ctx (uuids s))]
             /\ draws (snd (publish env ingestion_properties queues blob s))
                = S (draws s)
             /\ uuids (snd (publish env ingestion_properties queues blob s))
                = S (uuids s)
       | Err _ => puts_of seg = [] /\ uploads_of seg = []
       end.
Proof.
  unfold publish, bind, choice.
  destruct queues as [|q0 qs].
  { exists []. cbn. rewrite List.app_nil_r. auto. }
  destruct (chosen env (q0 :: qs) (draws s)) as [q|] eqn:Eq.
  2:{ exists []. cbn. rewrite List.app_nil_r. auto. }
  set (s1 := set_draws (S (draws s)) s).
  destruct (cached_run env Auth cached_auth
              (fun v c => {| cached_containers := cached_containers c;
                             cached_queues := cached_queues c;
                             cached_auth := v |})
              authorization_context Token s1)
    as (aseg & Hlog & Hseg & (Hd & Hu & Hup & Hp & Hf) & _).
  fold (get_authorization_context env) in *.
  destruct (get_authorization_context env s1) as [[ctx|e] s2].
  2:{ exists aseg. cbn in *. apply accessor_seg_quiet in Hseg. auto. }
  cbn in Hlog, Hseg, Hd, Hu, Hup, Hp, Hf.
  unfold new_ingestion_blob_info, bind, uuid4, ret, lift.
  rewrite b64_text_to_json. unfold put_message.
  destruct (put_outcome env (puts (set_uuids (S (uuids s2)) s2))); cbn.
  - exists aseg. apply accessor_seg_quiet in Hseg. auto.
  - exists (aseg ++ [PutMessage q (message_of blob ctx (uuids s))]).
    rewrite Hlog, Hup, Hf, Hd, Hu, app_assoc. unfold message_of.
    repeat split. exists q, ctx, aseg. repeat split. exact Hseg.
Qed.

(** The log of the loop of [ingest_from_blobs] over [blobs], started with
    [d] draws and [u] UUIDs taken: for each blob in turn the call for the
    authorization context and the message put on the chosen queue; the
    flag tells whether the loop came to its end, or an exception stopped
    it, after events that put no message. *)
Inductive publishes (queues : list Resource)
  : list BlobDescriptor -> nat -> nat -> list event -> bool -> Prop :=
  | publishes_done d u : publishes queues [] d u [] true
  | publishes_stop blob blobs d u junk :
    puts_of junk = [] -> uploads_of junk = [] ->
    publishes queues (blob :: blobs) d u junk false
  | publishes_step blob blobs d u q ctx aseg rest complete :
    chosen env queues d = Some q ->
    accessor_seg Auth (Ok (Token ctx)) aseg ->
    publishes queues blobs (S d) (S u) rest complete ->
    publishes queues (blob :: blobs) d u
      (aseg ++ PutMessage q (message_of blob ctx u) :: rest) complete.

Lemma for_each_publish queues blobs s :
  exists seg,
    log (snd (for_each (publish env ingestion_properties queues) blobs s))
    = log s ++ seg
    /\ uploads
         (snd (for_each (publish env ingestion_properties queues) blobs s))
       = uploads s
    /\ files
         (snd (for_each (publish env ingestion_properties queues) blobs s))
       = files s
    /\ publishes queues blobs (draws s) (uuids s) seg
         (is_ok
            (fst (for_each (publish env ingestion_properties queues)
                    blobs s))).
Proof.
  revert s. induction blobs as [|blob blobs IH]; intros s.
  - exists []. cbn. rewrite List.app_nil_r. repeat split. constructor.
  - cbn [for_each]. unfold bind.
    destruct (publish_run queues blob s) as (seg1 & Hlog & Hup & Hf & Hr).
    destruct (publish env ingestion_properties queues blob s)
      as [[[]|e] s1]; cbn [fst snd] in *.
    + destruct Hr as (q & ctx & aseg & Hq & Hseg & -> & Hd & Hu).
      destruct (IH s1) as (seg2 & Hlog2 & Hup2 & Hf2 & Hp).
      rewrite Hd, Hu in Hp.
      destruct (for_each (publish env ingestion_properties queues) blobs s1)
        as [[bs|e] s2]; cbn [fst snd is_ok ret] in *;
        exists (aseg ++ PutMessage q (message_of blob ctx (uuids s)) :: seg2);
        rewrite Hlog2, Hlog, Hup2, Hup, Hf2, Hf;
        rewrite <- !app_assoc; cbn [app]; repeat split;
        econstructor; eassumption.
    + exists seg1. destruct Hr as [Hp Hu]. repeat split; trivial.
      constructor; assumption.
Qed.

Lemma ingest_from_blobs_run blobs s :
  exists qseg seg,
    log (snd (ingest_from_blobs env blobs ingestion_properties s))
    = log s ++ qseg ++ seg
    /\ uploads (snd (ingest_from_blobs env blobs ingestion_properties s))
       = uploads s
    /\ files (snd (ingest_from_blobs env blobs ingestion_properties s))
       = files s
    /\ accessor_seg Queues
         (result_map Resources (fst (get_ingestion_queues env s))) qseg
    /\ match fst (get_ingestion_queues env s) with
       | Ok queues =>
           publishes queues blobs (draws s) (uuids s) seg
             (is_ok (fst (ingest_from_blobs env blobs
                            ingestion_properties s)))
       | Err e =>
           seg = []
           /\ fst (ingest_from_blobs env blobs ingestion_properties s)
              = Err e
       end.
Proof.
  unfold ingest_from_blobs, bind.
  destruct (cached_run env Queues cached_queues
              (fun v c => {| cached_containers := cached_containers c;
                             cached_queues := v;
                             cached_auth := cached_auth c |})
              queues Resources s)
    as (qseg & Hlog & Hseg & (Hd & Hu & Hup & Hp & Hf) & _).
  fold (get_ingestion_queues env) in *.
  destruct (get_ingestion_queues env s) as [[qs|e] s1]; cbn [fst snd] in *.
  - destruct (for_each_publish qs blobs s1) as (seg & Hlog2 & Hup2 & Hf2 & Hpub).
    rewrite Hd, Hu in Hpub.
    destruct (for_each (publish env ingestion_properties qs) blobs s1)
      as [[bs|e] s2]; cbn [fst snd is_ok ret] in *;
      exists qseg, seg; rewrite Hlog2, Hlog, Hup2, Hup, Hf2, Hf, app_assoc;
      repeat split; assumption.
  - exists qseg, []. rewrite List.app_nil_r. repeat split; assumption.
Qed.

(** What the message for [blob] must be: the Base64 text of the UTF-8
    octets of the JSON document of its ingestion descriptor. *)
Definition is_message_for (blob : BlobDescriptor) (content : str) : Prop :=
  exists ctx id octets,
    Utf8.encode (to_json (IngestionBlobInfo blob ingestion_properties ctx id))
    = Some octets
    /\ content = Base64.b64encode octets.

Lemma message_of_is_message_for blob ctx u :
  is_message_for blob (message_of blob ctx u).
Proof.
  exists ctx, (uuid_source env u).
  exists (to_json (IngestionBlobInfo blob ingestion_properties ctx
                     (uuid_source env u))).
  split; [|reflexivity]. apply Utf8.encode_ascii, dumps_ascii.
Qed.

Lemma publishes_messages queues blobs d u seg complete :
  publishes queues blobs d u seg complete ->
  exists k,
    (k <= List.length blobs)%nat
    /\ (complete = true -> k = List.length blobs)
    /\ Forall2 (fun blob m => is_message_for blob (snd m))
         (firstn k blobs) (puts_of seg).
Proof.
  induction 1 as [d u | blob blobs d u junk Hj _
                 | blob blobs d u q ctx aseg rest complete Hq Hseg _ IH].
  - exists 0%nat. cbn. repeat split; auto.
  - exists 0%nat. rewrite Hj. cbn. repeat split; [lia | discriminate | auto].
  - destruct IH as (k & Hk & Hc & HF). exists (S k).
    rewrite puts_of_app. destruct (accessor_seg_quiet _ _ _ Hseg) as [-> _].
    cbn. repeat split; [lia | auto |].
    constructor; [apply message_of_is_message_for | exact HF].
Qed.

(** The descriptor of an element of [files]: itself, or the one made from
    the path. *)
Definition descriptor_of (file : file_arg) : result FileDescriptor :=
  match file with
  | Descriptor d => Ok d
  | Path p => open_file env p
  end.

(** The object key of the blob staged for a file with descriptor [d], made
    with the [u]-th UUID. *)
Definition blob_key (d : FileDescriptor) (u : nat) : str :=
  blob_name_format (database ingestion_properties)
  (table ingestion_properties) (uuid_source env u) (stream_name d).

Lemma stage_run pool file s :
  exists seg,
  log (snd (stage env ingestion_properties pool file s)) = log s ++ seg
  /\ match fst (stage env ingestion_properties pool file s) with
     | Ok blob =>
         exists d c,
           descriptor_of file = Ok d
           /\ chosen env pool (draws s) = Some c
           /\ seg = [Upload c (blob_key d (uuids s)) (zipped_stream d)]
           /\ blob = {| url := make_blob_url c (blob_key d (uuids s));
                        size := fd_size d |}
           /\ draws (snd (stage env ingestion_properties pool file s))
              = S (draws s)
           /\ uuids (snd (stage env ingestion_properties pool file s))
              = S (uuids s)
     | Err _ => seg = []
     end.
Proof.
  unfold stage, bind, new_file_descriptor, bind, lift, update, ret, uuid4,
  choice, create_blob_from_stream, descriptor_of.
  destruct file as [p|d0]; [destruct (open_file env p) as [d|e]|];
  cbn; try (exists []; rewrite List.app_nil_r; split; reflexivity);
  (destruct pool as [|c0 cs];
   [exists []; cbn; rewrite List.app_nil_r; split; reflexivity|]);
  match goal with
  | |- context [chosen env ?l ?n] => destruct (chosen env l n) as [c|] eqn:Ec
  end; cbn;
  try (exists []; rewrite List.app_nil_r; split; reflexivity);
  match goal with
  | |- context [upload_outcome env ?n] => destruct (upload_outcome env n)
  end; cbn;
  try (exists []; rewrite List.app_nil_r; split; reflexivity);
  eexists; (split; [reflexivity|]); do 2 eexists; repeat split;
  eassumption.
Qed.

(** The log of the loop of [ingest_from_files] over [files], started with
    [d] draws and [u] UUIDs taken: for each file in turn the blob written
    to the chosen container; the flag tells whether the loop came to its
    end, or an exception stopped it. *)
Inductive stages (pool : list Resource)
  : list file_arg -> nat -> nat -> list event -> bool -> Prop :=
  | stages_done d u : stages pool [] d u [] true
  | stages_stop file files d u : stages pool (file :: files) d u [] false
  | stages_step file files d u desc c rest complete :
    descriptor_of file = Ok desc ->
    chosen env pool d = Some c ->
    stages pool files (S d) (S u) rest complete ->
    stages pool (file :: files) d u
      (Upload c (blob_key desc u) (zipped_stream desc) :: rest) complete.

Lemma for_each_stage pool files s :
  exists seg,
  log (snd (for_each (stage env ingestion_properties pool) files s))
  = log s ++ seg
  /\ stages pool files (draws s) (uuids s) seg
       (is_ok (fst (for_each (stage env ingestion_properties pool) files s)))
  /\ match fst (for_each (stage env ingestion_properties pool) files s) with
     | Ok blobs => List.length blobs = List.length files
     | Err _ => True
     end.
Proof.
  revert s. induction files as [|file files IH]; intros s.
  - exists []. cbn. rewrite List.app_nil_r. repeat split. constructor.
  - cbn [for_each]. unfold bind.
  destruct (stage_run pool file s) as (seg1 & Hlog & Hr).
  destruct (stage env ingestion_properties pool file s) as [[blob|e] s1];
    cbn [fst snd] in *.
  + destruct Hr as (desc & c & Hd & Hc & -> & _ & Hdr & Hu).
    destruct (IH s1) as (seg2 & Hlog2 & Hst & Hlen). rewrite Hdr, Hu in Hst.
    destruct (for_each (stage env ingestion_properties pool) files s1)
      as [[bs|e] s2]; cbn [fst snd is_ok ret] in *;
      exists (Upload c (blob_key desc (uuids s)) (zipped_stream desc) :: seg2);
      rewrite Hlog2, Hlog, <- app_assoc; cbn [app];
      (split; [reflexivity|]);
      (split; [econstructor; eassumption|]); cbn [List.length]; auto.
  + subst seg1. exists []. repeat split; trivial. constructor.
Qed.

Lemma publishes_no_uploads queues blobs d u seg complete :
  publishes queues blobs d u seg complete -> uploads_of seg = [].
Proof.
  induction 1 as [d u | blob blobs d u junk _ Hj
               | blob blobs d u q ctx aseg rest complete _ Hseg _ IH];
  trivial.
  rewrite uploads_of_app. destruct (accessor_seg_quiet _ _ _ Hseg) as [_ ->].
  exact IH.
Qed.

Lemma publishes_count queues blobs d u seg complete :
  publishes queues blobs d u seg complete ->
  (List.length (puts_of seg) <= List.length blobs)%nat
  /\ (complete = true -> List.length (puts_of seg) = List.length blobs).
Proof.
  intros H.
  destruct (publishes_messages queues blobs d u seg complete H)
  as (k & Hk & Hc & HF).
  apply Forall2_length in HF. rewrite length_firstn in HF.
  split; [lia|]. intros E. specialize (Hc E). lia.
Qed.


Lemma stages_count pool files d u seg complete :
  stages pool files d u seg complete ->
  (List.length (uploads_of seg) <= List.length files)%nat
  /\ (complete = true -> List.length (uploads_of seg) = List.length files).
Proof.
  induction 1 as [d u | file files d u
               | file files d u desc c rest complete _ _ _ [IH1 IH2]].
  - cbn. split; [lia | reflexivity].
  - cbn. split; [lia | discriminate].
  - change (uploads_of (Upload c (blob_key desc u) (zipped_stream desc) :: rest))
    with ((c, blob_key desc u, zipped_stream desc) :: uploads_of rest).
  cbn [List.length]. split; [lia|]. intros E. rewrite (IH2 E). reflexivity.
Qed.

Lemma stages_stopped pool files d u seg :
  stages pool files d u seg false ->
  (List.length (uploads_of seg) < List.length files)%nat.
Proof.
  intros H. remember false as complete eqn:E.
  induction H as [d u | file files d u
                 | file files d u desc c rest complete _ _ _ IH].
  - discriminate.
  - cbn. lia.
  - change (uploads_of
              (Upload c (blob_key desc u) (zipped_stream desc) :: rest))
      with ((c, blob_key desc u, zipped_stream desc) :: uploads_of rest).
    cbn [List.length]. specialize (IH E). lia.
Qed.

(** The log of [ingest_from_files]: the call for the containers, the blobs
    staged, and what publishing them adds. *)
Lemma ingest_from_files_run files s :
  exists cseg seg rest staged,
  log (snd (ingest_from_files env files ingestion_properties s))
  = log s ++ cseg ++ seg ++ rest
  /\ accessor_seg Containers
       (result_map Resources (fst (get_containers env s))) cseg
  /\ match fst (get_containers env s) with
     | Ok pool =>
         stages pool files (draws s) (uuids s) seg staged
         /\ uploads_of rest = []
         /\ (List.length (puts_of rest) <= List.length files)%nat
         /\ (staged = false ->
             rest = []
             /\ is_ok (fst (ingest_from_files env files
                              ingestion_properties s)) = false)
         /\ (is_ok (fst (ingest_from_files env files ingestion_properties s))
             = true ->
             staged = true
             /\ List.length (puts_of rest) = List.length files)
     | Err e =>
         seg = [] /\ rest = []
         /\ fst (ingest_from_files env files ingestion_properties s) = Err e
     end.
Proof.
  unfold ingest_from_files, bind.
  destruct (cached_run env Containers cached_containers
            (fun v c => {| cached_containers := v;
                           cached_queues := cached_queues c;
                           cached_auth := cached_auth c |})
            containers Resources s)
  as (cseg & Hlog & Hseg & (Hd & Hu & _) & _).
  fold (get_containers env) in *.
  destruct (get_containers env s) as [[pool|e] s1]; cbn [fst snd] in *.
  2:{ exists cseg, [], [], false. rewrite !List.app_nil_r. auto. }
  destruct (for_each_stage pool files s1) as (seg & Hlog2 & Hst & Hlen).
  rewrite Hd, Hu in Hst.
  destruct (for_each (stage env ingestion_properties pool) files s1)
  as [[blobs|e] s2]; cbn [fst snd is_ok] in *.
  2:{ exists cseg, seg, [], false. rewrite Hlog2, Hlog, List.app_nil_r, app_assoc.
    repeat split; trivial; cbn; try lia; discriminate. }
  destruct (ingest_from_blobs_run blobs s2)
  as (qseg & pseg & Hlog3 & _ & _ & Hq & Hrun).
  exists cseg, seg, (qseg ++ pseg), true.
  rewrite Hlog3, Hlog2, Hlog, <- !app_assoc.
  split; [reflexivity|]. split; [exact Hseg|]. split; [exact Hst|].
  rewrite uploads_of_app, puts_of_app.
  destruct (accessor_seg_quiet _ _ _ Hq) as [-> ->]. cbn [app].
  destruct (fst (get_ingestion_queues env s2)) as [qs|e].
  - destruct (publishes_count _ _ _ _ _ _ Hrun) as [Hle Heq].
  rewrite Hlen in Hle, Heq.
  split; [exact (publishes_no_uploads _ _ _ _ _ _ Hrun)|].
  split; [exact Hle|]. split; [discriminate|]. auto.
  - destruct Hrun as [-> E]. rewrite E. cbn.
  split; [reflexivity|]. split; [lia|]. split; discriminate.
Qed.

(** The [i]-th blob staged by the loop is the one of the [i]-th file,
    under the key made with a UUID of its own, in the container chosen on
    a draw of its own. *)
Lemma stages_nth pool files d u seg complete :
  stages pool files d u seg complete ->
  forall i b,
  nth_error (uploads_of seg) i = Some b ->
  exists file desc,
    nth_error files i = Some file
    /\ descriptor_of file = Ok desc
    /\ chosen env pool (d + i) = Some (fst (fst b))
    /\ snd (fst b) = blob_key desc (u + i)
    /\ snd b = zipped_stream desc.
Proof.
  induction 1 as [d u | file files d u
               | file files d u desc c rest complete Hd Hc _ IH];
  intros i b Hi.
  - destruct i; discriminate.
  - destruct i; discriminate.
  - change (uploads_of (Upload c (blob_key desc u) (zipped_stream desc) :: rest))
    with ((c, blob_key desc u, zipped_stream desc) :: uploads_of rest) in Hi.
  destruct i as [|i]; cbn [nth_error] in *.
  + injection Hi as <-. exists file, desc. rewrite !Nat.add_0_r. auto.
  + destruct (IH i b Hi) as (file' & desc' & H1 & H2 & H3 & H4 & H5).
    exists file', desc'. rewrite <- !Nat.add_succ_comm. auto.
Qed.

(** The [i]-th message put by the loop is the one of the [i]-th blob, made
    with a UUID of its own, on the queue chosen on a draw of its own. *)
Lemma publishes_nth queues blobs d u seg complete :
  publishes queues blobs d u seg complete ->
  forall i m,
  nth_error (puts_of seg) i = Some m ->
  exists blob ctx,
    nth_error blobs i = Some blob
    /\ chosen env queues (d + i) = Some (fst m)
    /\ snd m = message_of blob ctx (u + i).
Proof.
  induction 1 as [d u | blob blobs d u junk Hj _
               | blob blobs d u q ctx aseg rest complete Hq Hseg _ IH];
  intros i m Hi.
  - destruct i; discriminate.
  - rewrite Hj in Hi. destruct i; discriminate.
  - rewrite puts_of_app in Hi.
  destruct (accessor_seg_quiet _ _ _ Hseg) as [E _]. rewrite E in Hi.
  change (puts_of (PutMessage q (message_of blob ctx u) :: rest))
    with ((q, message_of blob ctx u) :: puts_of rest) in Hi.
  destruct i as [|i]; cbn [app nth_error] in *.
  + injection Hi as <-. exists blob, ctx. rewrite !Nat.add_0_r. auto.
  + destruct (IH i m Hi) as (blob' & ctx' & H1 & H2 & H3).
    exists blob', ctx'. rewrite <- !Nat.add_succ_comm. auto.
Qed.


(** What the loop of [ingest_from_blobs] logs for the blobs it gets
    through, given for each the queue chosen, the authorization context
    the resource manager answered, and whether it had to fetch it: the
    call, the answer, and then the message, made with that answer. *)
Fixpoint per_blob (blobs : list BlobDescriptor) (u : nat)
         (steps : list (Resource * str * bool)) : list event :=
  match blobs, steps with
  | blob :: blobs', (q, ctx, fetched) :: steps' =>
    Call Auth
    :: (if fetched then [Fetch Auth] else [])
    ++ Got Auth (Token ctx)
    :: PutMessage q (message_of blob ctx u)
    :: per_blob blobs' (S u) steps'
  | _, _ => []
  end.

Lemma publishes_per_blob queues blobs d u seg complete :
  publishes queues blobs d u seg complete ->
  exists steps junk,
  seg = per_blob blobs u steps ++ junk
  /\ (List.length steps <= List.length blobs)%nat
  /\ puts_of junk = []
  /\ (complete = true -> junk = [] /\ List.length steps = List.length blobs).
Proof.
  induction 1 as [d u | blob blobs d u junk Hj _
               | blob blobs d u q ctx aseg rest complete Hq Hseg _ IH].
  - exists [], []. cbn. repeat split; auto.
  - exists [], junk. cbn. repeat split; try lia; try discriminate; auto.
  - destruct IH as (steps & junk & -> & Hlen & Hj & Hc).
  assert (Ha : exists fetched : bool,
             aseg = Call Auth :: (if fetched then [Fetch Auth] else [])
                    ++ [Got Auth (Token ctx)]).
  { inversion Hseg; subst; [exists false | exists true]; reflexivity. }
  destruct Ha as [fetched ->].
  exists ((q, ctx, fetched) :: steps), junk.
  cbn [per_blob List.length].
  split; [destruct fetched; reflexivity|]. split; [lia|]. split; [exact Hj|].
  intros E. destruct (Hc E) as [-> ->]. auto.
Qed.








End Loops.

(** *** The claims about the client *)

(** A world to run the examples in: one container, two queues, an
    authority that always answers, and storage services that never fail. *)
Module Scenario.

Definition queue_a : Resource :=
  {| storage_account_name := lit "acc1"; object_name := lit "queue-a";
     sas := lit "sig=1" |}.

Definition queue_b : Resource :=
  {| storage_account_name := lit "acc2"; object_name := lit "queue-b";
     sas := lit "sig=2" |}.

Definition container_a : Resource :=
  {| storage_account_name := lit "acc1"; object_name := lit "cont-a";
     sas := lit "sig=3" |}.

Definition container_b : Resource :=
  {| storage_account_name := lit "acc2"; object_name := lit "cont-b";
     sas := lit "sig=4" |}.

Definition resources (ctx : str) : ResourceSet :=
  {| containers := [container_a; container_b]; queues := [queue_a; queue_b];
     authorization_context := ctx |}.

Definition descriptor (p : str) : FileDescriptor :=
  {| fd_path := p; fd_size := 10; stream_name := p ++ lit ".gz";
     zipped_stream := [31; 139; 8]; fd_artifacts := [] |}.

Definition env : Env :=
  {| ttl := 3600;
     clock := fun n => Z.of_nat n;
     authority := fun _ => Some (resources (lit "ctx0"));
     randbelow := fun n k => ((3 * n + 1) mod k)%nat;
     uuid_source := fun n => lit "uuid-" ++ int_repr (Z.of_nat n);
     upload_outcome := fun _ => None;
     put_outcome := fun _ => None;
     open_file := fun p => Ok (descriptor p);
     pid := 42;
     tmpdir := lit "/tmp" |}.

Definition props : IngestionProperties :=
  {| database := lit "db"; table := lit "tbl";
     retain_blob_on_success := true; flush_immediately := false;
     ignore_size_limit := false;
     additional_properties := [(lit "format", JStr (lit "csv"))] |}.

Definition blob (n : Z) : BlobDescriptor :=
  {| url := lit "https://acc1.blob.core.windows.net/c/b" ++ int_repr n;
     size := 100 * n |}.

End Scenario.

(** Three blobs and a pool of two queues: three messages, on queues that
    differ, and the first one reads as the descriptor of the first blob. *)
Example three_blobs_three_messages :
  let run := ingest_from_blobs Scenario.env
               [Scenario.blob 1; Scenario.blob 2; Scenario.blob 3]
               Scenario.props initial in
  fst run = Ok tt
  /\ List.map fst (messages (snd run))
     = [Scenario.queue_b; Scenario.queue_a; Scenario.queue_b]
  /\ List.map snd (messages (snd run))
     = List.map (fun i => message_of Scenario.env Scenario.props
                            (Scenario.blob (Z.of_nat (S i))) (lit "ctx0") i)
         [0; 1; 2]%nat.
Proof. vm_compute. repeat split. Qed.





(** The blobs [ingest_from_files] adds to storage are those of the staging
    loop. *)
Lemma ingest_from_files_storage env ingestion_properties files s :
  exists new,
    storage (snd (ingest_from_files env files ingestion_properties s))
    = storage s ++ new
    /\ (List.length new <= List.length files)%nat
    /\ (fst (ingest_from_files env files ingestion_properties s) = Ok tt ->
        List.length new = List.length files)
    /\ match fst (get_containers env s) with
       | Ok pool =>
           exists staged,
             stages env ingestion_properties pool files (draws s) (uuids s)
               staged (Nat.eqb (List.length new) (List.length files))
             /\ new = uploads_of staged
       | Err _ => new = []
       end.
Proof.
  destruct (ingest_from_files_run env ingestion_properties files s)
    as (cseg & seg & rest & staged & Hlog & Hseg & Hrun).
  unfold storage. rewrite Hlog, !uploads_of_app.
  destruct (accessor_seg_quiet _ _ _ Hseg) as [_ ->]. cbn [app].
  destruct (fst (get_containers env s)) as [pool|e].
  - destruct Hrun as (Hst & -> & _ & Hstop & Hok).
    rewrite List.app_nil_r. exists (uploads_of seg).
    destruct (stages_count _ _ _ _ _ _ _ _ Hst) as [Hle Heq].
    split; [reflexivity|]. split; [exact Hle|]. split.
    + intros E. rewrite E in Hok. destruct (Hok eq_refl) as [-> _]. auto.
    + exists seg. split; [|reflexivity].
      destruct staged.
      * rewrite (Heq eq_refl), Nat.eqb_refl. exact Hst.
      * pose proof (stages_stopped _ _ _ _ _ _ _ Hst) as Hlt.
        replace (List.length (uploads_of seg) =? List.length files)%nat
          with false; [exact Hst|].
        symmetry. apply Nat.eqb_neq. lia.
  - destruct Hrun as (-> & -> & E). exists []. rewrite E. cbn.
    split; [reflexivity|]. split; [lia|]. split; [discriminate|reflexivity].
Qed.

(** The object key as the specification writes it: the database, the
    table, the UUID and the file or stream name, joined by two
    underscores. *)
Definition object_key (database table uuid name : str) : str :=
  join (lit "__") [database; table; uuid; name].

Lemma blob_name_format_object_key db tbl guid file :
  blob_name_format db tbl guid file = object_key db tbl guid file.
Proof. reflexivity. Qed.


(** The calls to the resource manager that a log holds. *)
Definition calls_of (l : list event) : list kind :=
  flat_map (fun e => match e with
                     | Call k => [k]
                     | _ => []
                     end) l.

Lemma calls_of_app l1 l2 : calls_of (l1 ++ l2) = calls_of l1 ++ calls_of l2.
Proof. apply flat_map_app. Qed.

Lemma accessor_seg_calls k r seg : accessor_seg k r seg -> calls_of seg = [k].
Proof. destruct 1; reflexivity. Qed.

(** C6. When the containers have to be fetched and the fetch fails,
    [ingest_from_files] fails with [ResourceUnavailable] and nothing has
    been uploaded, nor has any upload been tried, for any file. *)
Theorem ingest_from_files_fails_before_upload
        (env : Env) (files : list file_arg)
        (ingestion_properties : IngestionProperties) (s : State) :
  expired env (clock env (ticks s)) (cached_containers (cache s)) = true ->
  authority env (fetches s) = None ->
  fst (ingest_from_files env files ingestion_properties s)
  = Err ResourceUnavailable
  /\ uploads (snd (ingest_from_files env files ingestion_properties s))
     = uploads s
  /\ storage (snd (ingest_from_files env files ingestion_properties s))
     = storage s
  /\ messages (snd (ingest_from_files env files ingestion_properties s))
     = messages s.
Proof.
  intros He Ha. unfold ingest_from_files, bind, get_containers.
  rewrite (cached_fail env Containers _ _ _ _ s He Ha).
  unfold storage, messages. simpl_state.
  rewrite !uploads_of_app, !puts_of_app. cbn. rewrite !List.app_nil_r. auto.
Qed.

(** The authority cannot be reached. *)
Definition offline_env : Env :=
  {| ttl := ttl Scenario.env;
     clock := clock Scenario.env;
     authority := fun _ => None;
     randbelow := randbelow Scenario.env;
     uuid_source := uuid_source Scenario.env;
     upload_outcome := upload_outcome Scenario.env;
     put_outcome := put_outcome Scenario.env;
     open_file := open_file Scenario.env;
     pid := pid Scenario.env;
     tmpdir := tmpdir Scenario.env |}.

Lemma ingest_from_files_fails_before_upload_witness :
  fst (ingest_from_files offline_env [Path (lit "a.csv"); Path (lit "b.csv")]
         Scenario.props initial) = Err ResourceUnavailable
  /\ uploads (snd (ingest_from_files offline_env
                     [Path (lit "a.csv"); Path (lit "b.csv")]
                     Scenario.props initial)) = uploads initial
  /\ storage (snd (ingest_from_files offline_env
                     [Path (lit "a.csv"); Path (lit "b.csv")]
                     Scenario.props initial)) = storage initial
  /\ messages (snd (ingest_from_files offline_env
                      [Path (lit "a.csv"); Path (lit "b.csv")]
                      Scenario.props initial)) = messages initial.
Proof.
  apply ingest_from_files_fails_before_upload; reflexivity.
Defined.

(** C9. With no file, [ingest_from_files] uploads nothing and puts no
    message, and still calls the resource manager for the containers and,
    when that call returns, for the queues; with no blob,
    [ingest_from_blobs] puts no message and still calls for the queues. *)
Theorem empty_input_still_fetches
        (env : Env) (ingestion_properties : IngestionProperties) (s : State) :
  (exists seg,
      log (snd (ingest_from_files env [] ingestion_properties s))
      = log s ++ seg
      /\ uploads_of seg = [] /\ puts_of seg = []
      /\ uploads (snd (ingest_from_files env [] ingestion_properties s))
         = uploads s
      /\ puts (snd (ingest_from_files env [] ingestion_properties s)) = puts s
      /\ calls_of seg
         = match fst (get_containers env s) with
           | Ok _ => [Containers; Queues]
           | Err _ => [Containers]
           end)
  /\ (exists seg,
         log (snd (ingest_from_blobs env [] ingestion_properties s))
         = log s ++ seg
         /\ puts_of seg = []
         /\ puts (snd (ingest_from_blobs env [] ingestion_properties s))
            = puts s
         /\ calls_of seg = [Queues]).
Proof.
  assert (Hblobs : forall s0,
             exists seg,
               log (snd (ingest_from_blobs env [] ingestion_properties s0))
               = log s0 ++ seg
               /\ uploads_of seg = [] /\ puts_of seg = []
               /\ uploads (snd (ingest_from_blobs env [] ingestion_properties
                                  s0)) = uploads s0
               /\ puts (snd (ingest_from_blobs env [] ingestion_properties s0))
                  = puts s0
               /\ calls_of seg = [Queues]).
  { intros s0. unfold ingest_from_blobs, bind.
    destruct (cached_run env Queues cached_queues
                (fun v c => {| cached_containers := cached_containers c;
                               cached_queues := v;
                               cached_auth := cached_auth c |})
                queues Resources s0)
      as (qseg & Hlog & Hseg & (_ & _ & Hup & Hp & _) & _).
    fold (get_ingestion_queues env) in *.
    destruct (accessor_seg_quiet _ _ _ Hseg) as [Hq1 Hq2].
    apply accessor_seg_calls in Hseg.
    destruct (get_ingestion_queues env s0) as [[qs|e] s1];
      cbn [fst snd for_each ret] in *; exists qseg; auto 10. }
  split.
  - unfold ingest_from_files, bind.
    destruct (cached_run env Containers cached_containers
                (fun v c => {| cached_containers := v;
                               cached_queues := cached_queues c;
                               cached_auth := cached_auth c |})
                containers Resources s)
      as (cseg & Hlog & Hseg & (_ & _ & Hup & Hp & _) & _).
    fold (get_containers env) in *.
    destruct (accessor_seg_quiet _ _ _ Hseg) as [Hq1 Hq2].
    apply accessor_seg_calls in Hseg.
    destruct (get_containers env s) as [[pool|e] s1];
      cbn [fst snd for_each ret] in *.
    + destruct (Hblobs s1) as (seg & Hlog2 & Hu2 & Hp2 & Hup2 & Hpp2 & Hc2).
      exists (cseg ++ seg).
      rewrite Hlog2, Hlog, app_assoc, uploads_of_app, puts_of_app,
        calls_of_app, Hq1, Hq2, Hu2, Hp2, Hseg, Hc2, Hup2, Hpp2.
      auto 10.
    + exists cseg. auto 10.
  - destruct (Hblobs s) as (seg & Hlog2 & Hu2 & Hp2 & Hup2 & Hpp2 & Hc2).
    exists seg. auto.
Qed.

(** The message as the service reads it: Base64 decoded, UTF-8 decoded,
    parsed as JSON. *)
Definition decode_message (content : str) : option json :=
  match Utf8.encode content with
  | None => None
  | Some characters =>
      match Base64.b64decode characters with
      | None => None
      | Some octets =>
          match Utf8.decode octets with
          | None => None
          | Some text => loads text
          end
      end
  end.

(** A valid descriptor: every string in it is a string of Unicode scalar
    values, those of the pass-through options included. *)
Definition valid_descriptor (blob : BlobDescriptor)
           (ingestion_properties : IngestionProperties)
           (auth_context id : str) : bool :=
  forallb scalarb (url blob)
  && forallb scalarb (database ingestion_properties)
  && forallb scalarb (table ingestion_properties)
  && wfb (JObj (additional_properties ingestion_properties))
  && forallb scalarb auth_context
  && forallb scalarb id.

Lemma valid_descriptor_wf blob ingestion_properties auth_context id :
  valid_descriptor blob ingestion_properties auth_context id = true ->
  wf (IngestionBlobInfo blob ingestion_properties auth_context id).
Proof.
  unfold valid_descriptor, wf. intros H.
  repeat (apply andb_prop in H; let H' := fresh "H" in destruct H as [H H']).
  unfold IngestionBlobInfo. cbn [wfb forallb] in *.
  repeat match goal with
         | H : _ = true |- _ => rewrite H; clear H
         end.
  reflexivity.
Qed.

(** C4. For every valid blob descriptor, ingestion properties and
    authorization context (and message identifier), the message is made
    without an encoding error, and Base64 decoding, UTF-8 decoding and JSON
    parsing of it give back the descriptor document. *)
Theorem descriptor_message_round_trip
        (blob : BlobDescriptor) (ingestion_properties : IngestionProperties)
        (auth_context id : str) :
  valid_descriptor blob ingestion_properties auth_context id = true ->
  exists content,
    b64_text (to_json (IngestionBlobInfo blob ingestion_properties
                         auth_context id)) = Ok content
    /\ decode_message content
       = Some (IngestionBlobInfo blob ingestion_properties auth_context id).
Proof.
  intros Hv. apply valid_descriptor_wf in Hv.
  set (doc := IngestionBlobInfo blob ingestion_properties auth_context id) in *.
  exists (Base64.b64encode (to_json doc)). split; [apply b64_text_to_json|].
  assert (Ha : Forall is_ascii (to_json doc)) by apply dumps_ascii.
  assert (Hb : Forall is_byte (to_json doc)).
  { eapply Forall_impl; [|exact Ha]. unfold is_ascii, is_byte. intros; lia. }
  unfold decode_message.
  rewrite (Utf8.encode_ascii _ (Base64.b64encode_ascii _ Hb)).
  rewrite (Base64.b64decode_b64encode _ Hb).
  rewrite (Utf8.decode_ascii _ Ha).
  apply loads_dumps. exact Hv.
Qed.

Lemma descriptor_message_round_trip_witness :
  exists content,
    b64_text (to_json (IngestionBlobInfo (Scenario.blob 1) Scenario.props
                         (lit "ctx0") [117; 233; 8364; 128512])) = Ok content
    /\ decode_message content
       = Some (IngestionBlobInfo (Scenario.blob 1) Scenario.props
                 (lit "ctx0") [117; 233; 8364; 128512]).
Proof.
  apply descriptor_message_round_trip. vm_compute. reflexivity.
Defined.

(** [n] calls of [get_containers], one after the other. *)
Fixpoint get_containers_times (env : Env) (n : nat) : M unit :=
  match n with
  | O => ret tt
  | S m => _ <- get_containers env ;; get_containers_times env m
  end.

Lemma get_containers_times_hits env n :
  forall s a t0,
    cached_containers (cache s) = Some (a, t0) ->
    (forall i, (i < n)%nat -> clock env (ticks s + i) - t0 <= ttl env) ->
    fst (get_containers_times env n s) = Ok tt
    /\ fetches (snd (get_containers_times env n s)) = fetches s
    /\ cached_containers (cache (snd (get_containers_times env n s)))
       = Some (a, t0)
    /\ ticks (snd (get_containers_times env n s)) = (ticks s + n)%nat.
Proof.
  induction n as [|n IH]; intros s a t0 Hc Hw.
  - cbn. rewrite Nat.add_0_r. auto.
  - cbn [get_containers_times]. unfold bind, get_containers.
    rewrite (cached_hit env Containers _ _ _ _ s a t0 Hc).
    2:{ apply Z.ltb_ge. specialize (Hw 0%nat ltac:(lia)).
        rewrite Nat.add_0_r in Hw. lia. }
    match goal with
    | |- context [get_containers_times env n ?s1] =>
        destruct (IH s1 a t0) as (Hr & Hf & Hc' & Ht)
    end.
    + exact Hc.
    + intros i Hi. cbn [ticks record set_ticks].
      specialize (Hw (S i) ltac:(lia)).
      replace (S (ticks s) + i)%nat with (ticks s + S i)%nat by lia.
      exact Hw.
    + cbn [ticks fetches cache record set_ticks] in *.
      rewrite Hr, Hf, Hc', Ht. repeat split. lia.
Qed.

Lemma get_containers_times_S env n s :
  get_containers_times env (S n) s
  = match get_containers env s with
    | (Ok _, s') => get_containers_times env n s'
    | (Err e, s') => (Err e, s')
    end.
Proof. reflexivity. Qed.

Lemma get_containers_miss env s rs :
  expired env (clock env (ticks s)) (cached_containers (cache s)) = true ->
  authority env (fetches s) = Some rs ->
  exists s',
    get_containers env s = (Ok (containers rs), s')
    /\ ticks s' = S (ticks s)
    /\ fetches s' = S (fetches s)
    /\ cached_containers (cache s')
       = Some (containers rs, clock env (ticks s)).
Proof.
  intros He Ha. unfold get_containers.
  rewrite (cached_miss env Containers _ _ _ _ s rs He Ha).
  eexists. split; [reflexivity|]. repeat split.
Qed.

(** C3. Calls of [get_containers] that start with the value absent or
    expired and all fall within one time to live of the first one make one
    fetch from the authority; the next call, made after the time to live
    has passed, makes one more. The authority answers both fetches. *)
Theorem get_containers_one_fetch_per_window
        (env : Env) (s : State) (n : nat) (first second : ResourceSet) :
  (1 <= n)%nat ->
  expired env (clock env (ticks s)) (cached_containers (cache s)) = true ->
  authority env (fetches s) = Some first ->
  authority env (S (fetches s)) = Some second ->
  (forall i, (i < n)%nat ->
             clock env (ticks s + i) - clock env (ticks s) <= ttl env) ->
  ttl env < clock env (ticks s + n) - clock env (ticks s) ->
  let within := snd (get_containers_times env n s) in
  let after := snd (get_containers env within) in
  fetches within = S (fetches s) /\ fetches after = S (fetches within).
Proof.
  intros Hn He H1 H2 Hw Hl. cbv zeta.
  destruct n as [|n]; [lia|].
  rewrite get_containers_times_S.
  destruct (get_containers_miss env s first He H1)
    as (st1 & -> & Ht1 & Hf1 & Hc1).
  destruct (get_containers_times_hits env n st1 (containers first)
              (clock env (ticks s)) Hc1)
    as (Hr & Hf & Hc & Ht).
  { intros i Hi. rewrite Ht1. specialize (Hw (S i) ltac:(lia)).
    replace (S (ticks s) + i)%nat with (ticks s + S i)%nat by lia.
    exact Hw. }
  set (st2 := snd (get_containers_times env n st1)) in *.
  clearbody st2. split; [congruence|].
  destruct (get_containers_miss env st2 second) as (st3 & -> & _ & Hf3 & _).
  - unfold expired. rewrite Hc, Ht, Ht1. apply Z.ltb_lt.
    replace (S (ticks s) + n)%nat with (ticks s + S n)%nat by lia.
    exact Hl.
  - rewrite Hf, Hf1. exact H2.
  - exact Hf3.
Qed.

(** Three calls in the first seconds, a fourth after more than an hour. *)
Definition late_env : Env :=
  {| ttl := ttl Scenario.env;
     clock := fun n => if (n <? 3)%nat then Z.of_nat n else 4000;
     authority := authority Scenario.env;
     randbelow := randbelow Scenario.env;
     uuid_source := uuid_source Scenario.env;
     upload_outcome := upload_outcome Scenario.env;
     put_outcome := put_outcome Scenario.env;
     open_file := open_file Scenario.env;
     pid := pid Scenario.env;
     tmpdir := tmpdir Scenario.env |}.

Lemma get_containers_one_fetch_per_window_witness :
  fetches (snd (get_containers_times late_env 3 initial)) = 1%nat
  /\ fetches (snd (get_containers late_env
                     (snd (get_containers_times late_env 3 initial))))
     = S (fetches (snd (get_containers_times late_env 3 initial))).
Proof.
  apply (get_containers_one_fetch_per_window late_env initial 3
           (Scenario.resources (lit "ctx0")) (Scenario.resources (lit "ctx0"))).
  - lia.
  - reflexivity.
  - reflexivity.
  - reflexivity.
  - intros i Hi. destruct i as [|[|[|i]]]; cbn; lia.
  - cbn. lia.
Defined.

(** Two files and a pool of two containers: the first blob goes to one
    container and the second to the other. *)
Example two_files_two_containers :
  let run := ingest_from_files Scenario.env
               [Path (lit "a.csv"); Path (lit "b.csv")]
               Scenario.props initial in
  fst run = Ok tt
  /\ List.map (fun b => fst (fst b)) (storage (snd run))
     = [Scenario.container_b; Scenario.container_a].
Proof. vm_compute. split; reflexivity. Qed.











(** The value of a field of a JSON object. *)
Fixpoint lookup (key : str) (items : list (str * json)) : option json :=
  match items with
  | [] => None
  | (k, v) :: rest => if str_eqb key k then Some v else lookup key rest
  end.

Definition field (key : str) (doc : json) : option json :=
  match doc with
  | JObj items => lookup key items
  | _ => None
  end.

(** The authorization context that a message carries. *)
Definition carried_context (m : Resource * str) : option json :=
  match decode_message (snd m) with
  | Some doc => field (lit "AuthorizationContext") doc
  | None => None
  end.

(** An authority whose every answer has an authorization context of its
    own, and a clock that passes the time to live between the second and
    the third reading. *)
Definition refreshing_env : Env :=
  {| ttl := ttl Scenario.env;
     clock := fun n => if (n <? 2)%nat then 0 else 4000;
     authority :=
       fun n => Some (Scenario.resources (lit "ctx" ++ int_repr (Z.of_nat n)));
     randbelow := randbelow Scenario.env;
     uuid_source := uuid_source Scenario.env;
     upload_outcome := upload_outcome Scenario.env;
     put_outcome := put_outcome Scenario.env;
     open_file := open_file Scenario.env;
     pid := pid Scenario.env;
     tmpdir := tmpdir Scenario.env |}.

(** C10. In [ingest_from_blobs] the log after the call for the queues is,
    for each blob in turn: the call to the resource manager for the
    authorization context, its answer, and then the message, made with
    that answer; so every message carries the context current when it was
    put. And in one batch two messages can carry different contexts: here
    the cached context expires between the first blob and the second. *)
Theorem authorization_context_per_blob :
  (forall (env : Env) (blobs : list BlobDescriptor)
          (ingestion_properties : IngestionProperties) (s : State),
      exists qseg steps junk,
        log (snd (ingest_from_blobs env blobs ingestion_properties s))
        = log s ++ qseg
          ++ per_blob env ingestion_properties blobs (uuids s) steps ++ junk
        /\ calls_of qseg = [Queues]
        /\ puts_of qseg = []
        /\ puts_of junk = []
        /\ (List.length steps <= List.length blobs)%nat
        /\ (fst (ingest_from_blobs env blobs ingestion_properties s) = Ok tt
            -> junk = [] /\ List.length steps = List.length blobs))
  /\ (let run := ingest_from_blobs refreshing_env
                   [Scenario.blob 1; Scenario.blob 2] Scenario.props initial in
      fst run = Ok tt
      /\ List.map carried_context (messages (snd run))
         = [Some (JStr (lit "ctx1")); Some (JStr (lit "ctx2"))]).
Proof.
  split.
  - intros env blobs ingestion_properties s.
    destruct (ingest_from_blobs_run env ingestion_properties blobs s)
      as (qseg & seg & Hlog & _ & _ & Hq & Hrun).
    destruct (accessor_seg_quiet _ _ _ Hq) as [Hq1 _].
    apply accessor_seg_calls in Hq.
    destruct (fst (get_ingestion_queues env s)) as [queues|e].
    + destruct (publishes_per_blob env ingestion_properties _ _ _ _ _ _ Hrun)
        as (steps & junk & -> & Hlen & Hj & Hc).
      exists qseg, steps, junk. repeat (split; [assumption|]).
      intros E. rewrite E in Hc. exact (Hc eq_refl).
    + destruct Hrun as [-> E]. exists qseg, [], []. rewrite E.
      destruct blobs; cbn; repeat (split; [trivial; lia|]); discriminate.
  - vm_compute. split; reflexivity.
Qed.

(** The storage service refuses the [k]-th upload. *)
Definition failing_upload_env (k : nat) : Env :=
  {| ttl := ttl Scenario.env;
     clock := clock Scenario.env;
     authority := authority Scenario.env;
     randbelow := randbelow Scenario.env;
     uuid_source := uuid_source Scenario.env;
     upload_outcome :=
       fun n => if (n =? k)%nat then Some (Raised (lit "AzureHttpError"))
                else None;
     put_outcome := put_outcome Scenario.env;
     open_file := open_file Scenario.env;
     pid := pid Scenario.env;
     tmpdir := tmpdir Scenario.env |}.

(** The queue service refuses the [k]-th message. *)
Definition failing_put_env (k : nat) : Env :=
  {| ttl := ttl Scenario.env;
     clock := clock Scenario.env;
     authority := authority Scenario.env;
     randbelow := randbelow Scenario.env;
     uuid_source := uuid_source Scenario.env;
     upload_outcome := upload_outcome Scenario.env;
     put_outcome :=
       fun n => if (n =? k)%nat then Some (Raised (lit "AzureHttpError"))
                else None;
     open_file := open_file Scenario.env;
     pid := pid Scenario.env;
     tmpdir := tmpdir Scenario.env |}.

(** What became of each of the [n] items of a call that took the world
    from [s] to [s']: whether its blob was staged, and whether its message
    was published. *)
Definition item_outcomes (n : nat) (s s' : State) : list (bool * bool) :=
  List.map
    (fun i =>
       ((i <? List.length (storage s') - List.length (storage s))%nat,
        (i <? List.length (messages s') - List.length (messages s))%nat))
    (seq 0 n).

Definition two_files : list file_arg :=
  [Path (lit "a.csv"); Path (lit "b.csv")].


(** So no reading of what a call returns tells the outcomes of its
    items. *)
Lemma no_report_of_item_outcomes :
  ~ exists report : result unit -> list (bool * bool),
      forall env files ingestion_properties s,
        report (fst (ingest_from_files env files ingestion_properties s))
        = item_outcomes (List.length files) s
            (snd (ingest_from_files env files ingestion_properties s)).
Proof.
  intros [report H].
  pose proof (H (failing_upload_env 0) two_files Scenario.props initial) as H1.
  pose proof (H (failing_put_env 1) two_files Scenario.props initial) as H2.
  vm_compute in H1, H2. rewrite H1 in H2. discriminate.
Qed.


(** C5 does not hold of the code: the temporary file is deleted by the last
    two statements of [ingest_from_dataframe], which an exception skips.
    Here the queue service refuses the message: the call raises, the blob
    is in storage, and the compressed file is still in the temporary
    directory. When nothing fails the file is deleted. *)
Theorem temp_file_left_on_failure :
  let df := {| to_csv := Ok [31; 139; 8; 0] |} in
  let failed := ingest_from_dataframe (failing_put_env 0) df Scenario.props
                  initial in
  let done := ingest_from_dataframe Scenario.env df Scenario.props initial in
  fst failed = Err (Raised (lit "AzureHttpError"))
  /\ read_file (lit "/tmp/df_0_42.csv.gz") (files (snd failed))
     = Some [31; 139; 8; 0]
  /\ List.length (storage (snd failed)) = 1%nat
  /\ fst done = Ok tt
  /\ read_file (lit "/tmp/df_0_42.csv.gz") (files (snd done)) = None.
Proof. vm_compute. repeat split. Qed.

End Client.

(** ** Further properties of the ingest client *)

Module Further.
Import Json Client.

(** *** Local files *)

Lemma str_eqb_refl (p : str) : str_eqb p p = true.
Proof. unfold str_eqb. destruct (list_eq_dec Z.eq_dec p p); congruence. Qed.

Lemma str_eqb_neq (p q : str) : p <> q -> str_eqb p q = false.
Proof. unfold str_eqb. destruct (list_eq_dec Z.eq_dec p q); congruence. Qed.

Lemma read_file_remove_file p fs : read_file p (remove_file p fs) = None.
Proof.
  induction fs as [|[q data] fs IH]; [reflexivity|].
  unfold remove_file in *. cbn [List.filter fst].
  destruct (str_eqb p q) eqn:E; cbn [negb]; [exact IH|].
  cbn [read_file]. rewrite E. exact IH.
Qed.

Lemma read_file_written p data (before after : list (str * bytes)) :
  read_file p (before ++ (p, data) :: after) <> None.
Proof.
  induction before as [|[q d] before IH]; cbn [app read_file].
  - rewrite str_eqb_refl. discriminate.
  - destruct (str_eqb p q); [discriminate | exact IH].
Qed.

Lemma read_file_artifacts p data (artifacts : list str) after :
  ~ In p artifacts ->
  read_file p (List.map (fun a => (a, [])) artifacts ++ (p, data) :: after)
  = Some data.
Proof.
  induction artifacts as [|a artifacts IH]; intros Hn;
    cbn [List.map app read_file].
  - rewrite str_eqb_refl. reflexivity.
  - rewrite str_eqb_neq.
    + apply IH. intros H. apply Hn. right. exact H.
    + intros ->. apply Hn. left. reflexivity.
Qed.

(** *** The two loops, item by item *)

Section Outcomes.
Variable env : Env.
Variable ingestion_properties : IngestionProperties.





(** The artifacts that making a descriptor of [file] leaves on disk: those
    of [FileDescriptor(path)] for a path, none for a descriptor the caller
    made. *)
Definition artifacts_made (file : file_arg) : list (str * bytes) :=
  match file with
  | Path p =>
      match open_file env p with
      | Ok d => List.map (fun a => (a, [])) (fd_artifacts d)
      | Err _ => []
      end
  | Descriptor _ => []
  end.

(** The local files after a turn of the loop of [ingest_from_files],
    whatever it returns. *)
Lemma stage_files pool file s :
  files (snd (stage env ingestion_properties pool file s))
  = artifacts_made file ++ files s.
Proof.
  unfold stage, bind, new_file_descriptor, bind, lift, update, ret, uuid4,
    choice, create_blob_from_stream, artifacts_made.
  destruct file as [p|d]; [destruct (open_file env p) as [d|e]|];
    simpl_state; try reflexivity;
    (destruct pool as [|c0 cs]; [reflexivity|]);
    match goal with
    | |- context [chosen env ?l ?n] => destruct (chosen env l n)
    end; simpl_state; try reflexivity;
    match goal with
    | |- context [upload_outcome env ?n] => destruct (upload_outcome env n)
    end; reflexivity.
Qed.

Lemma for_each_stage_files pool files s :
  exists k,
    (k <= List.length files)%nat
    /\ Client.files
         (snd (for_each (stage env ingestion_properties pool) files s))
       = flat_map artifacts_made (rev (firstn k files)) ++ Client.files s
    /\ (is_ok (fst (for_each (stage env ingestion_properties pool) files s))
        = true -> k = List.length files).
Proof.
  revert s. induction files as [|file files IH]; intros s.
  - exists 0%nat. cbn. auto.
  - cbn [for_each]. unfold bind.
    pose proof (stage_files pool file s) as Hf.
    destruct (stage env ingestion_properties pool file s) as [[blob|e] s1];
      cbn [fst snd] in *.
    + destruct (IH s1) as (k & Hk & Hf2 & Hall). exists (S k).
      cbn [firstn rev List.length].
      rewrite flat_map_app. cbn [flat_map]. rewrite List.app_nil_r.
      destruct (for_each (stage env ingestion_properties pool) files s1)
        as [[bs|e] s2]; cbn [fst snd ret is_ok] in *;
        rewrite Hf2, Hf, app_assoc; (split; [lia|]);
        (split; [reflexivity|]); intros E; [|discriminate].
      rewrite (Hall eq_refl). reflexivity.
    + exists 1%nat. cbn [firstn rev List.length app flat_map].
      rewrite List.app_nil_r. split; [lia|]. split; [exact Hf|].
      discriminate.
Qed.






(** X4. [ingest_from_files] deletes no local file. Whatever it returns,
    the local files after the call are those there were, with, before
    them, the artifacts of the descriptors it made of the first [k] files,
    for the paths among them: the descriptors are never asked to delete
    their files. When the call returns these are the artifacts of all the
    paths given, each of them still on disk. *)
Theorem ingest_from_files_keeps_local_files
        (files : list file_arg) (s : State) :
  exists k,
    (k <= List.length files)%nat
    /\ Client.files (snd (ingest_from_files env files ingestion_properties s))
       = flat_map artifacts_made (rev (firstn k files)) ++ Client.files s
    /\ (fst (ingest_from_files env files ingestion_properties s) = Ok tt ->
        k = List.length files
        /\ forall p d a,
            In (Path p) files -> open_file env p = Ok d ->
            In a (fd_artifacts d) ->
            read_file a
              (Client.files
                 (snd (ingest_from_files env files ingestion_properties s)))
            <> None).
Proof.
  assert (Hcases :
            exists k,
              (k <= List.length files)%nat
              /\ Client.files
                   (snd (ingest_from_files env files ingestion_properties s))
                 = flat_map artifacts_made (rev (firstn k files))
                   ++ Client.files s
              /\ (fst (ingest_from_files env files ingestion_properties s)
                  = Ok tt -> k = List.length files)).
  { unfold ingest_from_files, bind.
    destruct (cached_run env Containers cached_containers
                (fun v c => {| cached_containers := v;
                               cached_queues := cached_queues c;
                               cached_auth := cached_auth c |})
                containers Resources s)
      as (cseg & _ & _ & (_ & _ & _ & _ & Hf) & _).
    fold (get_containers env) in *.
    destruct (get_containers env s) as [[pool|e] s1]; cbn [fst snd] in *.
    2:{ exists 0%nat. cbn. split; [lia|]. split; [exact Hf | discriminate]. }
    destruct (for_each_stage_files pool files s1) as (k & Hk & Hf2 & Hall).
    exists k. split; [exact Hk|].
    destruct (for_each (stage env ingestion_properties pool) files s1)
      as [[blobs|e] s2]; cbn [fst snd is_ok] in *.
    - destruct (ingest_from_blobs_run env ingestion_properties blobs s2)
        as (_ & _ & _ & _ & Hf3 & _).
      rewrite Hf3, Hf2, Hf. auto.
    - rewrite Hf2, Hf. split; [reflexivity | discriminate]. }
  destruct Hcases as (k & Hk & Hf & Hall).
  exists k. split; [exact Hk|]. split; [exact Hf|].
  intros Hok. specialize (Hall Hok). split; [exact Hall|].
  intros p d a Hp Hd Ha. rewrite Hf, Hall, firstn_all.
  assert (Hin : In (a, []) (flat_map artifacts_made (rev files))).
  { apply in_flat_map. exists (Path p). split.
    - rewrite <- in_rev. exact Hp.
    - cbn [artifacts_made]. rewrite Hd.
      apply in_map_iff. exists a. auto. }
  apply in_split in Hin. destruct Hin as (before & after & ->).
  rewrite <- app_assoc. cbn [app]. apply read_file_written.
Qed.


(** The exits of [ingest_from_dataframe], with the local files each one
    leaves. *)
Lemma ingest_from_dataframe_cases (df : DataFrame) (s : State) :
  let name := df_file_name env (clock env (ticks s)) in
  let p := temp_path env name in
  let key := blob_name_format (database ingestion_properties)
               (table ingestion_properties) (uuid_source env (uuids s))
               name in
  match to_csv df with
  | Err e =>
      fst (ingest_from_dataframe env df ingestion_properties s) = Err e
      /\ files (snd (ingest_from_dataframe env df ingestion_properties s))
         = files s
      /\ log (snd (ingest_from_dataframe env df ingestion_properties s))
         = log s
  | Ok data =>
      match open_file env p with
      | Err e =>
          fst (ingest_from_dataframe env df ingestion_properties s) = Err e
          /\ files (snd (ingest_from_dataframe env df ingestion_properties s))
             = (p, data) :: remove_file p (files s)
      | Ok fd =>
          let on_disk :=
            List.map (fun a => (a, [])) (fd_artifacts fd)
            ++ (p, data) :: remove_file p (files s) in
          match fst (ingest_from_dataframe env df ingestion_properties s) with
          | Ok _ =>
              exists c q ctx content,
                read_file p on_disk = Some content
                /\ storage (snd (ingest_from_dataframe env df
                                   ingestion_properties s))
                   = storage s ++ [(c, key, content)]
                /\ messages (snd (ingest_from_dataframe env df
                                    ingestion_properties s))
                   = messages s
                     ++ [(q, message_of env ingestion_properties
                               {| url := make_blob_url c key;
                                  size := fd_size fd |} ctx (S (uuids s)))]
                /\ files (snd (ingest_from_dataframe env df
                                 ingestion_properties s))
                   = remove_file p
                       (fold_right remove_file on_disk (fd_artifacts fd))
          | Err e =>
              files (snd (ingest_from_dataframe env df ingestion_properties
                            s)) = on_disk
              \/ (e = FileNotFoundError
                  /\ read_file p
                       (files (snd (ingest_from_dataframe env df
                                      ingestion_properties s))) = None)
          end
      end
  end.
Proof.
  intros name p key.
  unfold storage, messages, ingest_from_dataframe, bind, now, write_csv, bind,
    lift, update, new_file_descriptor, bind, lift, update, ret, uuid4.
  cbv zeta. simpl_state. fold name. fold p. fold key.
  destruct (to_csv df) as [data|e]; simpl_state; [|auto].
  destruct (open_file env p) as [fd|e]; simpl_state; [|auto].
  set (on_disk := List.map (fun a => (a, [])) (fd_artifacts fd)
                  ++ (p, data) :: remove_file p (files s)).
  match goal with
  | |- context [get_containers env ?sa] =>
      set (s1 := sa);
      destruct (cached_run env Containers cached_containers
                  (fun v c => {| cached_containers := v;
                                 cached_queues := cached_queues c;
                                 cached_auth := cached_auth c |})
                  containers Resources s1)
        as (cseg & Hlog & Hseg & (Hd & Hu & Hup & Hp & Hf) & _)
  end.
  fold (get_containers env) in *.
  assert (Hl1 : log s1 = log s ++ [WriteFile p]) by reflexivity.
  assert (Hf1 : files s1 = on_disk) by reflexivity.
  assert (Hu1 : uuids s1 = S (uuids s)) by reflexivity.
  clearbody s1.
  destruct (accessor_seg_quiet _ _ _ Hseg) as [Hcp Hcq].
  destruct (get_containers env s1) as [[pool|e] s2]; cbn [fst snd] in *.
  2:{ left. congruence. }
  unfold choice.
  destruct pool as [|c0 cs]; [left; simpl_state; congruence|].
  destruct (chosen env (c0 :: cs) (draws s2)) as [c|];
    [|left; simpl_state; congruence].
  unfold create_blob_from_path, bind, create_blob_from_stream.
  simpl_state. rewrite Hf, Hf1.
  destruct (read_file p on_disk) as [content|] eqn:Er;
    [|left; simpl_state; congruence].
  simpl_state.
  destruct (upload_outcome env (uploads s2));
    [left; simpl_state; congruence|].
  fold key.
  match goal with
  | |- context [ingest_from_blobs env ?bl ?pr ?sb] =>
      set (blob := {| url := make_blob_url c key; size := fd_size fd |});
      set (s3 := sb);
      assert (Hl3 : log s3 = log s2 ++ [Upload c key content])
        by reflexivity;
      assert (Hf3 : files s3 = files s2) by reflexivity;
      assert (Hu3 : uuids s3 = uuids s2) by reflexivity;
      clearbody s3
  end.
  destruct (ingest_from_blobs_run env ingestion_properties [blob] s3)
    as (qseg & pseg & Hlog4 & _ & Hf4 & Hq & Hrun).
  destruct (accessor_seg_quiet _ _ _ Hq) as [Hqp Hqu].
  destruct (ingest_from_blobs env [blob] ingestion_properties s3)
    as [[[]|e] s4]; cbn [fst snd] in *.
  2:{ left. congruence. }
  destruct (fst (get_ingestion_queues env s3)) as [qs|e];
    [|destruct Hrun as [_ Hrun]; discriminate].
  cbn [is_ok] in Hrun.
  pose proof (proj2 (publishes_count _ _ _ _ _ _ _ _ Hrun) eq_refl) as Hone.
  pose proof (publishes_no_uploads _ _ _ _ _ _ _ _ Hrun) as Hnone.
  destruct (puts_of pseg) as [|m [|m' rest]] eqn:Em; try discriminate.
  destruct (publishes_nth _ _ _ _ _ _ _ _ Hrun 0%nat m)
    as (b & ctx & Hb & _ & Hm).
  { rewrite Em. reflexivity. }
  apply Some_inj in Hb. subst b.
  rewrite Nat.add_0_r, Hu3, Hu, Hu1 in Hm.
  assert (Hsto : uploads_of (log s4)
                 = uploads_of (log s) ++ [(c, key, content)]).
  { rewrite Hlog4, Hl3, Hlog, Hl1, !uploads_of_app, Hqu, Hnone, Hcq.
    cbn [uploads_of flat_map app]. rewrite ?List.app_nil_r. reflexivity. }
  assert (Hmsg : puts_of (log s4) = puts_of (log s) ++ [m]).
  { rewrite Hlog4, Hl3, Hlog, Hl1, !puts_of_app, Hqp, Em, Hcp.
    cbn [puts_of flat_map app]. rewrite ?List.app_nil_r. reflexivity. }
  unfold delete_files, update, unlink. simpl_state.
  rewrite Hf4, Hf3, Hf, Hf1.
  destruct (read_file p (fold_right remove_file on_disk (fd_artifacts fd)))
    eqn:Eu; simpl_state.
  - exists c, (fst m), ctx, content.
    rewrite uploads_of_app, puts_of_app, Hsto, Hmsg, ?List.app_nil_r.
    cbn [uploads_of puts_of flat_map]. rewrite ?List.app_nil_r.
    destruct m as [q text]. cbn [fst snd] in *. subst text. auto.
  - right. auto.
Qed.

(** X6. When [ingest_from_dataframe] returns, the dataframe was written to
    the temporary file and a descriptor made of it; exactly one blob was
    staged, under the key made from the file's name, holding what was
    read from the temporary file, which is what [to_csv] wrote unless the
    descriptor put an artifact of its own in its place; exactly one
    message was published, which describes that blob, with the size of
    the descriptor; and the temporary file is gone. *)
Theorem ingest_from_dataframe_on_return (df : DataFrame) (s : State) :
  let name := df_file_name env (clock env (ticks s)) in
  let p := temp_path env name in
  let key := blob_name_format (database ingestion_properties)
               (table ingestion_properties) (uuid_source env (uuids s))
               name in
  fst (ingest_from_dataframe env df ingestion_properties s) = Ok tt ->
  exists data fd c q ctx content,
    to_csv df = Ok data
    /\ open_file env p = Ok fd
    /\ storage (snd (ingest_from_dataframe env df ingestion_properties s))
       = storage s ++ [(c, key, content)]
    /\ (~ In p (fd_artifacts fd) -> content = data)
    /\ messages (snd (ingest_from_dataframe env df ingestion_properties s))
       = messages s
         ++ [(q, message_of env ingestion_properties
                   {| url := make_blob_url c key; size := fd_size fd |} ctx
                   (S (uuids s)))]
    /\ read_file p
         (files (snd (ingest_from_dataframe env df ingestion_properties s)))
       = None.
Proof.
  intros name p key Hok.
  pose proof (ingest_from_dataframe_cases df s) as H. cbv zeta in H.
  fold name in H. fold p in H. fold key in H.
  destruct (to_csv df) as [data|e]; [|destruct H; congruence].
  destruct (open_file env p) as [fd|e]; [|destruct H; congruence].
  rewrite Hok in H. destruct H as (c & q & ctx & content & Hr & Hs & Hm & Hf).
  exists data, fd, c, q, ctx, content.
  split; [reflexivity|]. split; [reflexivity|]. split; [exact Hs|].
  split; [|split; [exact Hm|]].
  - intros Hn. rewrite (read_file_artifacts p data _ _ Hn) in Hr.
    congruence.
  - rewrite Hf. apply read_file_remove_file.
Qed.





(** X9. With no queue to choose from, [ingest_from_blobs] raises
    [IndexError] at its first blob: it has asked the resource manager for
    the queues and for nothing else, and has put no message nor tried
    to. *)
Theorem ingest_from_blobs_empty_pool
        (blobs : list BlobDescriptor) (s : State) :
  fst (get_ingestion_queues env s) = Ok [] ->
  blobs <> [] ->
  fst (ingest_from_blobs env blobs ingestion_properties s) = Err IndexError
  /\ messages (snd (ingest_from_blobs env blobs ingestion_properties s))
     = messages s
  /\ puts (snd (ingest_from_blobs env blobs ingestion_properties s)) = puts s
  /\ exists seg,
      log (snd (ingest_from_blobs env blobs ingestion_properties s))
      = log s ++ seg
      /\ calls_of seg = [Queues].
Proof.
  intros Hq Hne. unfold ingest_from_blobs, bind, messages.
  destruct (cached_run env Queues cached_queues
              (fun v c => {| cached_containers := cached_containers c;
                             cached_queues := v;
                             cached_auth := cached_auth c |})
              queues Resources s)
    as (qseg & Hlog & Hseg & (_ & _ & _ & Hp & _) & _).
  fold (get_ingestion_queues env) in *.
  destruct (accessor_seg_quiet _ _ _ Hseg) as [Hqp _].
  apply accessor_seg_calls in Hseg.
  destruct (get_ingestion_queues env s) as [r s1]. cbn [fst snd] in *.
  subst r. destruct blobs as [|blob blobs]; [congruence|].
  cbn. rewrite Hlog, puts_of_app, Hqp, List.app_nil_r.
  repeat (split; [trivial|]). exists qseg. auto.
Qed.

(** X10. With no container to choose from, [ingest_from_files] raises
    [IndexError] at its first file, once it has a descriptor of it:
    nothing is uploaded, no upload is tried, and no message is put. *)
Theorem ingest_from_files_empty_pool
        (file : file_arg) (files : list file_arg) (d : FileDescriptor)
        (s : State) :
  fst (get_containers env s) = Ok [] ->
  descriptor_of env file = Ok d ->
  fst (ingest_from_files env (file :: files) ingestion_properties s)
  = Err IndexError
  /\ storage (snd (ingest_from_files env (file :: files)
                     ingestion_properties s)) = storage s
  /\ uploads (snd (ingest_from_files env (file :: files)
                     ingestion_properties s)) = uploads s
  /\ messages (snd (ingest_from_files env (file :: files)
                      ingestion_properties s)) = messages s.
Proof.
  intros Hc Hd. unfold ingest_from_files, bind, storage, messages.
  destruct (cached_run env Containers cached_containers
              (fun v c => {| cached_containers := v;
                             cached_queues := cached_queues c;
                             cached_auth := cached_auth c |})
              containers Resources s)
    as (cseg & Hlog & Hseg & (_ & _ & Hup & _) & _).
  fold (get_containers env) in *.
  destruct (accessor_seg_quiet _ _ _ Hseg) as [Hcp Hcu].
  destruct (get_containers env s) as [r s1]. cbn [fst snd] in *. subst r.
  cbn [for_each]. unfold stage, bind, new_file_descriptor, bind, lift, update,
    ret, uuid4, choice.
  destruct file as [p|d0]; cbn [descriptor_of] in Hd; rewrite ?Hd;
    simpl_state;
    rewrite Hlog, uploads_of_app, puts_of_app, Hcp, Hcu, !List.app_nil_r;
    auto.
Qed.

Lemma app_same_length {A} (a c b d : list A) :
  a ++ b = c ++ d -> List.length a = List.length c -> a = c.
Proof.
  revert c. induction a as [|x a IH]; intros [|y c] E Hl;
    try discriminate; [reflexivity|].
  cbn in E, Hl. injection E as -> E. f_equal. apply (IH c E). lia.
Qed.

(** Two keys for one database and table, made with UUIDs of one length,
    are the same only if the UUIDs are. *)
Lemma blob_name_format_guid db tbl guid1 guid2 file1 file2 :
  blob_name_format db tbl guid1 file1 = blob_name_format db tbl guid2 file2 ->
  List.length guid1 = List.length guid2 ->
  guid1 = guid2.
Proof.
  unfold blob_name_format. intros E Hl.
  do 4 apply app_inv_head in E.
  exact (app_same_length _ _ _ _ E Hl).
Qed.

(** X11. The blobs that one call of [ingest_from_files] stages have keys
    that differ from one another, whatever the names of the files, given
    that the UUIDs generated during the call differ and have one
    length. *)
Theorem ingest_from_files_keys_distinct (files : list file_arg) (s : State) :
  (forall i j, (i < List.length files)%nat -> (j < List.length files)%nat ->
               List.length (uuid_source env (uuids s + i))
               = List.length (uuid_source env (uuids s + j))) ->
  (forall i j, (i < List.length files)%nat -> (j < List.length files)%nat ->
               uuid_source env (uuids s + i) = uuid_source env (uuids s + j) ->
               i = j) ->
  exists staged,
    storage (snd (ingest_from_files env files ingestion_properties s))
    = storage s ++ staged
    /\ NoDup (List.map (fun b => snd (fst b)) staged).
Proof.
  intros Hlen Hinj.
  destruct (ingest_from_files_storage env ingestion_properties files s)
    as (new & Hst & Hle & _ & Hrun).
  exists new. split; [exact Hst|].
  destruct (fst (get_containers env s)) as [pool|e].
  2:{ subst new. constructor. }
  destruct Hrun as (seg & Hstages & ->).
  apply NoDup_nth_error. intros i j Hi E.
  rewrite length_map in Hi. rewrite !nth_error_map in E.
  destruct (nth_error (uploads_of seg) i) as [b|] eqn:Ei.
  2:{ apply nth_error_None in Ei. lia. }
  destruct (nth_error (uploads_of seg) j) as [b'|] eqn:Ej; [|discriminate].
  assert (Hj : (j < List.length (uploads_of seg))%nat).
  { apply nth_error_Some. congruence. }
  cbn [option_map] in E. apply Some_inj in E.
  destruct (stages_nth _ _ _ _ _ _ _ _ Hstages i b Ei)
    as (_ & d & _ & _ & _ & Hk & _).
  destruct (stages_nth _ _ _ _ _ _ _ _ Hstages j b' Ej)
    as (_ & d' & _ & _ & _ & Hk' & _).
  rewrite Hk, Hk' in E. unfold blob_key in E.
  apply (Hinj i j); try lia.
  apply (blob_name_format_guid _ _ _ _ _ _ E).
  apply Hlen; lia.
Qed.

Lemma b64encode_length (bs : bytes) :
  (List.length (Base64.b64encode bs) mod 4 = 0)%nat.
Proof.
  induction bs as [|a|a b|a b c r IH] using Base64.list_ind3;
    try reflexivity.
  cbn [Base64.b64encode List.length].
  replace (S (S (S (S (List.length (Base64.b64encode r))))))
    with (List.length (Base64.b64encode r) + 1 * 4)%nat by lia.
  rewrite Nat.Div0.mod_add. exact IH.
Qed.

(** X12. Every message that [ingest_from_blobs] puts on a queue is ASCII
    text, whatever characters the blob's URL, the ingestion properties
    and the authorization context hold: whole quanta of four Base64
    characters, which decode to the octets of the JSON text of the
    message's document. *)
Theorem ingest_from_blobs_messages_are_base64
        (blobs : list BlobDescriptor) (s : State) :
  exists published,
    messages (snd (ingest_from_blobs env blobs ingestion_properties s))
    = messages s ++ published
    /\ forall i m,
        nth_error published i = Some m ->
        exists blob ctx id,
          nth_error blobs i = Some blob
          /\ Forall is_ascii (snd m)
          /\ (List.length (snd m) mod 4 = 0)%nat
          /\ Base64.b64decode (snd m)
             = Some (to_json (IngestionBlobInfo blob ingestion_properties
                                ctx id)).
Proof.
  destruct (ingest_from_blobs_run env ingestion_properties blobs s)
    as (qseg & seg & Hlog & _ & _ & Hq & Hrun).
  exists (puts_of seg). unfold messages. rewrite Hlog, !puts_of_app.
  destruct (accessor_seg_quiet _ _ _ Hq) as [-> _].
  split; [reflexivity|]. intros i m Hi.
  destruct (fst (get_ingestion_queues env s)) as [qs|e].
  2:{ destruct Hrun as [-> _]. destruct i; discriminate. }
  destruct (publishes_nth _ _ _ _ _ _ _ _ Hrun i m Hi)
    as (blob & ctx & Hb & _ & Hm).
  exists blob, ctx, (uuid_source env (uuids s + i)).
  rewrite Hm. unfold message_of.
  set (doc := IngestionBlobInfo blob ingestion_properties ctx
                (uuid_source env (uuids s + i))).
  assert (Hbytes : Forall is_byte (to_json doc)).
  { eapply Forall_impl; [|apply dumps_ascii].
    unfold is_ascii, is_byte. intros; lia. }
  split; [exact Hb|]. split; [apply Base64.b64encode_ascii; exact Hbytes|].
  split; [apply b64encode_length|].
  apply Base64.b64decode_b64encode. exact Hbytes.
Qed.

End Outcomes.

(** *** The theorems at work *)

(** A dataframe of which [to_csv] writes four octets. *)
Definition rows : DataFrame := {| to_csv := Ok [31; 139; 8; 0] |}.

(** The authority answers, with no container and no queue. *)
Definition barren_env : Env :=
  {| ttl := ttl Scenario.env;
     clock := clock Scenario.env;
     authority :=
       fun _ => Some {| containers := []; queues := [];
                        authorization_context := lit "ctx0" |};
     randbelow := randbelow Scenario.env;
     uuid_source := uuid_source Scenario.env;
     upload_outcome := upload_outcome Scenario.env;
     put_outcome := put_outcome Scenario.env;
     open_file := open_file Scenario.env;
     pid := pid Scenario.env;
     tmpdir := tmpdir Scenario.env |}.

Lemma ingest_from_dataframe_on_return_witness :
  exists data fd c q ctx content,
    to_csv rows = Ok data
    /\ open_file Scenario.env
         (temp_path Scenario.env (df_file_name Scenario.env 0)) = Ok fd
    /\ storage (snd (ingest_from_dataframe Scenario.env rows Scenario.props
                       initial))
       = storage initial
         ++ [(c,
              blob_name_format (lit "db") (lit "tbl")
                (uuid_source Scenario.env 0) (df_file_name Scenario.env 0),
              content)]
    /\ (~ In (temp_path Scenario.env (df_file_name Scenario.env 0))
             (fd_artifacts fd) -> content = data)
    /\ messages (snd (ingest_from_dataframe Scenario.env rows Scenario.props
                        initial))
       = messages initial
         ++ [(q, message_of Scenario.env Scenario.props
                   {| url := make_blob_url c
                               (blob_name_format (lit "db") (lit "tbl")
                                  (uuid_source Scenario.env 0)
                                  (df_file_name Scenario.env 0));
                      size := fd_size fd |} ctx 1)]
    /\ read_file (temp_path Scenario.env (df_file_name Scenario.env 0))
         (files (snd (ingest_from_dataframe Scenario.env rows Scenario.props
                        initial)))
       = None.
Proof.
  apply (ingest_from_dataframe_on_return Scenario.env Scenario.props rows
           initial).
  vm_compute. reflexivity.
Defined.



Lemma ingest_from_blobs_empty_pool_witness :
  fst (ingest_from_blobs barren_env [Scenario.blob 1] Scenario.props initial)
  = Err IndexError
  /\ messages (snd (ingest_from_blobs barren_env [Scenario.blob 1]
                      Scenario.props initial)) = messages initial
  /\ puts (snd (ingest_from_blobs barren_env [Scenario.blob 1] Scenario.props
                  initial)) = puts initial
  /\ exists seg,
      log (snd (ingest_from_blobs barren_env [Scenario.blob 1] Scenario.props
                  initial)) = log initial ++ seg
      /\ calls_of seg = [Queues].
Proof.
  apply (ingest_from_blobs_empty_pool barren_env Scenario.props
           [Scenario.blob 1] initial).
  - reflexivity.
  - discriminate.
Defined.

Lemma ingest_from_files_empty_pool_witness :
  fst (ingest_from_files barren_env two_files Scenario.props initial)
  = Err IndexError
  /\ storage (snd (ingest_from_files barren_env two_files Scenario.props
                     initial)) = storage initial
  /\ uploads (snd (ingest_from_files barren_env two_files Scenario.props
                     initial)) = uploads initial
  /\ messages (snd (ingest_from_files barren_env two_files Scenario.props
                      initial)) = messages initial.
Proof.
  apply (ingest_from_files_empty_pool barren_env Scenario.props
           (Path (lit "a.csv")) [Path (lit "b.csv")]
           (Scenario.descriptor (lit "a.csv")) initial).
  - reflexivity.
  - reflexivity.
Defined.

Lemma ingest_from_files_keys_distinct_witness :
  exists staged,
    storage (snd (ingest_from_files Scenario.env two_files Scenario.props
                    initial))
    = storage initial ++ staged
    /\ NoDup (List.map (fun b => snd (fst b)) staged).
Proof.
  apply (ingest_from_files_keys_distinct Scenario.env Scenario.props two_files
           initial).
  - intros [|[|i]] [|[|j]] Hi Hj; cbn in Hi, Hj; try lia; reflexivity.
  - intros [|[|i]] [|[|j]] Hi Hj E; cbn in Hi, Hj; try lia;
      try reflexivity; vm_compute in E; discriminate.
Defined.

End Further.
